(** * webpack-monkey: the in-page client and the hot-reload orchestration

    Part one ([Client]) is a shallow embedding of [src/client/client.ts]:
    the top-level code of the client module, [matchScript] and
    [loadScript], with JavaScript exceptions as an explicit completion
    type and the calls to [log], [__MK_GLOBAL__.loadScript] and [loadCss]
    recorded as a trace of effects. [urlMatch] comes from
    [../shared/utils] and is a parameter. The statements at the head of
    the module ([console.log], [monkeyReload(module)], [Object.assign])
    take no part in matching or loading and are left out.

    Part two ([Hmr]) models the reload cycle that [./hmr] implements
    (filter, decision, teardown, loader). That module is imported by
    [client.ts] but its text is not available, so its definitions follow
    the written specification and say so. *)

From Stdlib Require Import String Ascii List Bool Arith Lia.
From stdpp Require Import base option list strings gmap.
Import ListNotations.

Local Open Scope string_scope.
Local Open Scope list_scope.

(** ** JavaScript completions *)

Module Js.

(** The value carried by a [throw]; only its printed form is observed. *)
Definition Exn := string.

(** Outcome of evaluating an expression that may throw. *)
Inductive Completion (A : Type) : Type :=
| Normal (a : A)
| Throw (e : Exn).
Arguments Normal {A} a.
Arguments Throw {A} e.

(** Sequencing: an exception skips the continuation. *)
#[global] Instance Completion_bind : MBind Completion :=
  fun A B k c =>
    match c with
    | Normal a => k a
    | Throw e => Throw e
    end.

(** [Array.prototype.some]: the callback is applied from the left and the
    scan stops at the first truthy answer; an exception thrown by the
    callback leaves the scan at once. *)
Fixpoint some {A} (f : A -> Completion bool) (l : list A) : Completion bool :=
  match l with
  | [] => Normal false
  | x :: r => f x ≫= fun b : bool => if b then Normal true else some f r
  end.

(** [String.prototype.endsWith]. *)
Definition endsWith (s suffix : string) : bool :=
  let n := String.length s in
  let k := String.length suffix in
  Nat.leb k n && String.eqb (substring (n - k) k s) suffix.

(** The double-quote character, for template strings that contain one. *)
Definition dquote : string := String (ascii_of_nat 34) EmptyString.

End Js.

(** ** The client module, [src/client/client.ts] *)

Module Client.
Import Js.

(** A pattern property of the userscript meta ([include], [match],
    [exclude]): absent, one string, or an array of strings. *)
Inductive PatternField : Type :=
| Undefined
| Single (s : string)
| Multiple (l : list string).

Record UserscriptMeta : Type := {
  include : PatternField;
  match_ : PatternField;
  exclude : PatternField
}.

(** [UserscriptInfo], with the four properties [client.ts] reads. *)
Record UserscriptInfo : Type := {
  name : string;
  url : string;
  meta : UserscriptMeta;
  assets : list string
}.

(** Calls that leave the client module. *)
Inductive Effect : Type :=
| Log (args : list string)            (* log(...) of ./log *)
| GlobalLoadScript (u : string)       (* __MK_GLOBAL__.loadScript(u) *)
| LoadCss (asset : string).           (* loadCss(asset) of ./css *)

(** JavaScript truthiness of a pattern property: [undefined] and the
    empty string are falsy, every array is truthy. *)
Definition truthy (f : PatternField) : bool :=
  match f with
  | Undefined => false
  | Single s => negb (String.eqb s "")
  | Multiple _ => true
  end.

(** lodash [compact]. *)
Definition compact (l : list PatternField) : list PatternField :=
  List.filter truthy l.

(** [Array.prototype.flat] at depth one, on a compacted array (which
    holds no [undefined]). *)
Definition flat (l : list PatternField) : list string :=
  flat_map (fun f =>
              match f with
              | Undefined => []
              | Single s => [s]
              | Multiple ps => ps
              end) l.

(** The object handed to dispose handlers and found again as
    [module.hot.data] by the next evaluation of the module. *)
Record HotData : Type := {
  data_loadedScripts : option (list UserscriptInfo)
}.

(** [module.hot], when hot replacement is enabled. *)
Record Hot : Type := {
  hot_data : option HotData
}.

(** [(module.hot?.data as any)?.loadedScripts || []]. *)
Definition initial_loadedScripts (module_hot : option Hot)
  : list UserscriptInfo :=
  match module_hot with
  | Some h =>
      match hot_data h with
      | Some d =>
          match data_loadedScripts d with
          | Some l => l
          | None => []
          end
      | None => []
      end
  | None => []
  end.

(** The handler given to [module.hot.dispose]:
    [data.loadedScripts = loadedScripts]. *)
Definition dispose_handler (loadedScripts : list UserscriptInfo)
           (data : HotData) : HotData :=
  {| data_loadedScripts := Some loadedScripts |}.

(** The module is replaced: the runtime runs the dispose handler on a
    fresh data object and evaluates the new module with it. *)
Definition hot_after_dispose (loadedScripts : list UserscriptInfo) : option Hot :=
  Some {| hot_data :=
            Some (dispose_handler loadedScripts {| data_loadedScripts := None |}) |}.

(** [loadScript]: the array [loadedScripts] is threaded through. *)
Definition loadScript (script : UserscriptInfo)
           (loadedScripts : list UserscriptInfo)
  : list UserscriptInfo * list Effect :=
  match List.find (fun s => String.eqb (name s) (name script)) loadedScripts with
  | Some _ => (loadedScripts, [])
  | None =>
      (loadedScripts ++ [script],
       [Log ["Loading script:"; name script]; GlobalLoadScript (url script)]
         ++ map LoadCss (List.filter (fun asset => endsWith asset ".css")
                                     (assets script)))
  end.

(** [matched.forEach(loadScript)]. *)
Fixpoint forEach_loadScript (matched : list UserscriptInfo)
         (loadedScripts : list UserscriptInfo)
  : list UserscriptInfo * list Effect :=
  match matched with
  | [] => (loadedScripts, [])
  | s :: r =>
      let '(l1, e1) := loadScript s loadedScripts in
      let '(l2, e2) := forEach_loadScript r l1 in
      (l2, e1 ++ e2)
  end.

Section WithUrlMatch.

(** [urlMatch] of [../shared/utils]; it may throw. *)
Variable urlMatch : string -> string -> Completion bool.

(** The [try] block of [matchScript]: [Normal true] is the
    [return true], [Normal false] falls out of the block. *)
Definition matchScript_try (pageUrl : string) (m : UserscriptMeta)
  : Completion bool :=
  let include := flat (compact [include m; match_ m]) in
  some (fun pattern => urlMatch pattern pageUrl) include ≫= fun hit : bool =>
  if hit then
    let exclude := flat (compact [exclude m]) in
    some (fun pattern => urlMatch pattern pageUrl) exclude ≫= fun out : bool =>
    Normal (negb out)
  else Normal false.

(** [matchScript]: the answer, and what it logged. *)
Definition matchScript (pageUrl : string) (s : UserscriptInfo)
  : bool * list Effect :=
  match matchScript_try pageUrl (meta s) with
  | Normal b => (b, [])
  | Throw e =>
      (false,
       [Log ["Error matching script " +:+ dquote +:+ name s +:+ dquote +:+ ":"; e]])
  end.

(** [userscripts.filter(matchScript)]: every element is tested, in
    order; the log lines of the tests are kept. *)
Fixpoint filter_matchScript (pageUrl : string) (l : list UserscriptInfo)
  : list UserscriptInfo * list Effect :=
  match l with
  | [] => ([], [])
  | s :: r =>
      let '(b, e1) := matchScript pageUrl s in
      let '(kept, e2) := filter_matchScript pageUrl r in
      (if b then s :: kept else kept, e1 ++ e2)
  end.

(** The [forEach(loadScript)] phase of one evaluation: the loaded set it
    ends with and the effects of the [loadScript] calls. *)
Definition load_phase (userscripts : list UserscriptInfo)
           (pageUrl : string) (module_hot : option Hot)
  : list UserscriptInfo * list Effect :=
  forEach_loadScript (fst (filter_matchScript pageUrl userscripts))
                     (initial_loadedScripts module_hot).

(** One evaluation of the module body,
    [userscripts.filter(matchScript).forEach(loadScript)]: the effects of
    the match tests come first. *)
Definition client_module (userscripts : list UserscriptInfo)
           (pageUrl : string) (module_hot : option Hot)
  : list UserscriptInfo * list Effect :=
  let '(loaded, e2) := load_phase userscripts pageUrl module_hot in
  (loaded, snd (filter_matchScript pageUrl userscripts) ++ e2).

(** A page session: the first evaluation, then one evaluation per hot
    replacement of the client module, each with the userscript list and
    the page location of its time. *)
Fixpoint session (module_hot : option Hot)
         (loads : list (list UserscriptInfo * string))
  : list UserscriptInfo * list Effect :=
  match loads with
  | [] => (initial_loadedScripts module_hot, [])
  | (userscripts, pageUrl) :: rest =>
      let '(loaded, e1) := client_module userscripts pageUrl module_hot in
      let '(final, e2) := session (hot_after_dispose loaded) rest in
      (final, e1 ++ e2)
  end.

End WithUrlMatch.

(** *** Vocabulary for the statements about the client *)

(** The patterns [matchScript] tries for a match: those of [include]
    followed by those of [match]. *)
Definition include_patterns (m : UserscriptMeta) : list string :=
  flat (compact [include m; match_ m]).

(** The patterns of [exclude]. *)
Definition exclude_patterns (m : UserscriptMeta) : list string :=
  flat (compact [exclude m]).

(** The declared assets that the loop of [loadScript] hands to [loadCss]. *)
Definition css_assets (s : UserscriptInfo) : list string :=
  List.filter (fun asset => endsWith asset ".css") (assets s).

(** The assets a trace hands to [loadCss], in order. *)
Definition css_requests (trace : list Effect) : list string :=
  flat_map (fun e => match e with LoadCss a => [a] | _ => [] end) trace.

(** Some call of the trace asks the page to load [asset]. *)
Definition requested (asset : string) (trace : list Effect) : Prop :=
  In (LoadCss asset) trace \/ In (GlobalLoadScript asset) trace.

(** The match rule read without regard to exceptions: a userscript matches
    exactly when some pattern of [include] or [match] matches the page and
    no pattern of [exclude] does. *)
Definition match_rule_as_written : Prop :=
  forall (urlMatch : string -> string -> Completion bool) pageUrl s,
    fst (matchScript urlMatch pageUrl s) = true <->
    (exists p, In p (include_patterns (meta s))
               /\ urlMatch p pageUrl = Normal true)
    /\ (forall p, In p (exclude_patterns (meta s)) ->
                  urlMatch p pageUrl <> Normal true).

End Client.

(** ** The reload cycle of [./hmr] *)

Module Hmr.
Import Js.

(** Modelled from the spec: the flag of a Module Record (section 3), set
    by the registration calls of [./hmr] that are not in the sources: no
    marker, self-accepted, or whole-instance reload requested. *)
Inductive Marker : Type :=
| NoMarker
| SelfAccept
| WholeReload.

(** Modelled from the spec: a dispose callback of [./hmr], an invocable
    unit (section 9). Running it either completes or throws [cb_error]. *)
Record Callback : Type := {
  cb_id : nat;
  cb_error : option Exn
}.

(** Modelled from the spec: invoking a dispose callback of [./hmr]. *)
Definition run_callback (cb : Callback) : Completion unit :=
  match cb_error cb with
  | Some e => Throw e
  | None => Normal tt
  end.

(** Modelled from the spec: the Module Record of [./hmr] (section 3), its
    dispose callbacks in the order they were registered and its flag. *)
Record ModuleRecord : Type := {
  registered : list Callback;
  marker : Marker
}.

(** Modelled from the spec: the Live Module Set kept by the Module Registry
    of [./hmr], a map from module identifier to Module Record. *)
Abbreviation LiveSet := (gmap string ModuleRecord).

(** Modelled from the spec: the record a module of [./hmr] has when it
    first executes, and the one read for an identifier not yet recorded. *)
Definition fresh_record : ModuleRecord :=
  {| registered := []; marker := NoMarker |}.

(** Modelled from the spec: reading a module's record in the registry of
    [./hmr]; an unknown module is not an error (section 4.1). *)
Definition record_of (live : LiveSet) (m : string) : ModuleRecord :=
  default fresh_record (live !! m).

(** Modelled from the spec: [registerDispose(moduleId, callback)] of the
    Module Registry of [./hmr]: appends the callback to the module's
    stack. *)
Definition registerDispose (m : string) (cb : Callback) (live : LiveSet) : LiveSet :=
  <[m := {| registered := registered (record_of live m) ++ [cb];
            marker := marker (record_of live m) |}]> live.

(** Modelled from the spec: [getDisposeStack(moduleId)] of [./hmr]: the
    callbacks, most recently registered first; does not mutate. *)
Definition getDisposeStack (live : LiveSet) (m : string) : list Callback :=
  rev (registered (record_of live m)).

(** Modelled from the spec: [clear(moduleId)] of [./hmr]: empties the stack
    after draining. *)
Definition clear (m : string) (live : LiveSet) : LiveSet :=
  alter (fun r => {| registered := []; marker := marker r |}) m live.

(** Modelled from the spec: [snapshot()] of [./hmr]: the current live module
    identifier set. *)
Definition snapshot (live : LiveSet) : gset string := dom live.

(** Modelled from the spec: the tie-break of section 4.3 for the flag of
    [./hmr]: of two registrations the coarser one wins. *)
Definition coarser (a b : Marker) : Marker :=
  match a, b with
  | WholeReload, _ | _, WholeReload => WholeReload
  | SelfAccept, _ | _, SelfAccept => SelfAccept
  | NoMarker, NoMarker => NoMarker
  end.

(** Modelled from the spec: setting the flag of a module in [./hmr]
    ([registerWholeReload()] of section 6, or a self-accept). *)
Definition registerMarker (m : string) (k : Marker) (live : LiveSet) : LiveSet :=
  <[m := {| registered := registered (record_of live m);
            marker := coarser (marker (record_of live m)) k |}]> live.

(** Modelled from the spec: one matcher of the ignore-list configuration
    consumed by [./hmr] (section 6): a string looked for in the identifier,
    or a pattern. *)
Inductive Matcher : Type :=
| MatchString (s : string)
| MatchPattern (p : string -> bool).

(** Modelled from the spec: the ignore-list configuration of [./hmr]: a set
    of matchers or a predicate function. *)
Inductive IgnoreList : Type :=
| IgnoreMatchers (l : list Matcher)
| IgnorePredicate (f : string -> bool).

(** Modelled from the spec: the test of [./hmr] that an identifier contains
    an excluded path segment (scenario C). *)
Definition contains (id segment : string) : bool :=
  match String.index 0 segment id with
  | Some _ => true
  | None => false
  end.

(** Modelled from the spec: one matcher of [./hmr] applied to a module
    identifier. *)
Definition matcher_hits (mt : Matcher) (id : string) : bool :=
  match mt with
  | MatchString s => contains id s
  | MatchPattern p => p id
  end.

(** Modelled from the spec: the ignore predicate of [./hmr] on a module
    identifier. *)
Definition ignored (cfg : IgnoreList) (id : string) : bool :=
  match cfg with
  | IgnoreMatchers l => existsb (fun mt => matcher_hits mt id) l
  | IgnorePredicate f => f id
  end.

(** Modelled from the spec: the dependency graph given to [./hmr] by the
    bundler, as edges importer, imported. *)
Definition Graph : Type := list (string * string).

(** Modelled from the spec: the Dependency Reachability Filter of [./hmr]
    (section 4.2): the changed modules that the ignore predicate does not
    match. *)
Definition dependency_filter (cfg : IgnoreList) (g : Graph)
           (changed : gset string) : gset string :=
  filter (fun id => ignored cfg id = false) changed.

(** Modelled from the spec: the modules of the graph of [./hmr] that import
    [m]. *)
Definition importers (g : Graph) (m : string) : list string :=
  map fst (List.filter (fun e => String.eqb (snd e) m) g).

(** Modelled from the spec: the modules of the graph of [./hmr] that [m]
    imports. *)
Definition imports (g : Graph) (m : string) : list string :=
  map snd (List.filter (fun e => String.eqb (fst e) m) g).

(** Modelled from the spec: the Reload Decision of [./hmr] (section 3); a
    Partial decision carries the modules to tear down and replace. *)
Inductive Decision : Type :=
| NoOp
| Partial (targets : list string)
| Full.

(** Modelled from the spec: the test of [./hmr] that some module of the
    instance has registered whole-instance reload. *)
Definition whole_reload_registered (live : LiveSet) : bool :=
  existsb (fun kv =>
             match marker (snd kv) with
             | WholeReload => true
             | _ => false
             end)
          (map_to_list live).

(** Modelled from the spec: the walk of [./hmr] from a changed module up to
    the entry module (section 4.3). A module that self-accepted takes the
    change; otherwise every importer has to take it; the entry, or a module
    nobody imports, takes nothing. The result lists the changed module and
    its accepting ancestors. *)
Fixpoint bubble (live : LiveSet) (g : Graph) (entry : string)
         (fuel : nat) (m : string) : option (list string) :=
  match fuel with
  | 0 => None
  | S f =>
      match marker (record_of live m) with
      | SelfAccept => Some [m]
      | _ =>
          if String.eqb m entry then None
          else
            match importers g m with
            | [] => None
            | ps => ups ← mapM (bubble live g entry f) ps; Some (m :: concat ups)
            end
      end
  end.

(** Modelled from the spec: the transition rule of the Reload Decision
    Engine of [./hmr] (section 4.3), with the tie-break that a registered
    whole-instance reload wins over self-accepts. *)
Definition decide_reload (live : LiveSet) (g : Graph) (entry : string)
           (relevant : gset string) : Decision :=
  if decide (relevant = ∅) then NoOp
  else if whole_reload_registered live then Full
  else
    match mapM (bubble live g entry (S (length g))) (elements relevant) with
    | Some ups => Partial (remove_dups (concat ups))
    | None => Full
    end.

(** Modelled from the spec: what the reload cycle of [./hmr] does that can
    be observed. *)
Inductive Event : Type :=
| EvReport (d : Decision)                   (* diagnostic of the decision *)
| EvDispose (m : string) (cb : Callback)    (* a dispose callback is run *)
| EvFailures (l : list (string * nat * Exn)) (* aggregated disposer failures *)
| EvLog (e : Client.Effect)                 (* log line of the match re-check *)
| EvExec (m : string).                      (* a module's code starts executing *)

(** Modelled from the spec: draining one dispose stack in [./hmr]
    (section 4.4, step 3): every callback is run, a throw is caught and
    collected, and the next callback is run. *)
Fixpoint drain_stack (m : string) (cbs : list Callback)
  : list Event * list (string * nat * Exn) :=
  match cbs with
  | [] => ([], [])
  | cb :: r =>
      let '(evs, fails) := drain_stack m r in
      match run_callback cb with
      | Normal _ => (EvDispose m cb :: evs, fails)
      | Throw e => (EvDispose m cb :: evs, (m, cb_id cb, e) :: fails)
      end
  end.

(** Modelled from the spec: the sweep of the Teardown Coordinator of
    [./hmr] over the targeted modules: each module's own stack is drained
    and then cleared. *)
Fixpoint sweep (targets : list string) (live : LiveSet)
  : LiveSet * list Event * list (string * nat * Exn) :=
  match targets with
  | [] => (live, [], [])
  | m :: r =>
      let '(e1, f1) := drain_stack m (getDisposeStack live m) in
      let '(live', e2, f2) := sweep r (clear m live) in
      (live', e1 ++ e2, f1 ++ f2)
  end.

(** Modelled from the spec: surfacing the aggregated failure of [./hmr], if
    any, after the sweep. *)
Definition report_failures (fails : list (string * nat * Exn)) : list Event :=
  match fails with
  | [] => []
  | _ => [EvFailures fails]
  end.

(** Modelled from the spec: the module set a decision of [./hmr] hands to
    the Teardown Coordinator (section 4.4): the Partial set, or the entire
    Live Module Set for Full. *)
Definition target_list (d : Decision) (live : LiveSet) : list string :=
  match d with
  | NoOp => []
  | Partial targets => targets
  | Full => elements (dom live)
  end.

(** Modelled from the spec: the Teardown Coordinator of [./hmr]
    (section 4.4). After the sweep the failures are surfaced and the
    targeted modules leave the Live Module Set; for Full the whole set is
    discarded. *)
Definition teardown (d : Decision) (live : LiveSet) : LiveSet * list Event :=
  let '(live', evs, fails) := sweep (target_list d live) live in
  (match d with
   | Full => ∅
   | _ => foldr delete live' (target_list d live)
   end,
   evs ++ report_failures fails).

(** Modelled from the spec: the executable code of a module that the
    bundler hands to [./hmr]: the dispose callbacks it registers, in order,
    and the flag it sets. *)
Record Code : Type := {
  code_disposers : list Callback;
  code_marker : Marker
}.

(** Modelled from the spec: what the bundler provides to [./hmr]
    (section 6): the dependency graph and the code of each module. *)
Record Bundle : Type := {
  graph : Graph;
  code : gmap string Code
}.

(** Modelled from the spec: the body of a module of [./hmr] running: its
    registrations reach the Module Registry. *)
Definition run_body (m : string) (c : Code) (live : LiveSet) : LiveSet :=
  registerMarker m (code_marker c)
    (foldl (fun acc cb => registerDispose m cb acc) live (code_disposers c)).

(** Modelled from the spec: running a sequence of module executions of
    [./hmr] one after the other on the Live Module Set. *)
Fixpoint exec_seq (step : string -> LiveSet -> LiveSet * list Event)
         (ms : list string) (live : LiveSet) : LiveSet * list Event :=
  match ms with
  | [] => (live, [])
  | m :: r =>
      let '(l1, e1) := step m live in
      let '(l2, e2) := exec_seq step r l1 in
      (l2, e1 ++ e2)
  end.

(** Modelled from the spec: executing a module in [./hmr]. A live module is
    reused as it is; otherwise the module gets its record, its imports are
    executed first (dependencies before dependents) and then its body. *)
Fixpoint exec_module (b : Bundle) (fuel : nat) (m : string) (live : LiveSet)
  : LiveSet * list Event :=
  match fuel with
  | 0 => (live, [])
  | S f =>
      match live !! m, code b !! m with
      | None, Some c =>
          let '(live', evs) :=
            exec_seq (exec_module b f) (imports (graph b) m)
                     (<[m := fresh_record]> live) in
          (run_body m c live', evs ++ [EvExec m])
      | _, _ => (live, [])
      end
  end.

(** Modelled from the spec: the bound on nested module executions in
    [./hmr]: no chain of imports is longer than the number of modules. *)
Definition exec_fuel (b : Bundle) : nat := S (size (code b)).

(** Modelled from the spec: re-executing the replaced modules of [./hmr]
    in order (section 4.5, Partial). *)
Definition exec_all (b : Bundle) (ms : list string) (live : LiveSet)
  : LiveSet * list Event :=
  exec_seq (exec_module b (exec_fuel b)) ms live.

(** Modelled from the spec: a Userscript Instance as [./hmr] holds it
    (section 3): its entry module and its Live Module Set. Its patterns and
    assets are those of [Client.UserscriptInfo], supplied with each cycle. *)
Record Instance : Type := {
  inst_entry : string;
  inst_live : LiveSet
}.

(** Modelled from the spec: what the collaborators of [./hmr] supply for
    one cycle (section 6): the ignore list, the bundle, the meta data of
    the instance and the page location. *)
Record Env : Type := {
  env_ignore : IgnoreList;
  env_bundle : Bundle;
  env_info : Client.UserscriptInfo;
  env_pageUrl : string
}.

(** Modelled from the spec: the first two stages of a cycle of [./hmr]:
    the filter, then the decision on what it kept. *)
Definition decision_of (env : Env) (changed : gset string) (st : Instance)
  : Decision :=
  decide_reload (inst_live st) (graph (env_bundle env)) (inst_entry st)
    (dependency_filter (env_ignore env) (graph (env_bundle env)) changed).

(** Modelled from the spec: the modules a decision of [./hmr] tears down
    and replaces: the Partial set, or the entire Live Module Set. *)
Definition targeted (d : Decision) (live : LiveSet) (m : string) : Prop :=
  m ∈ target_list d live.

Section WithUrlMatch.

Variable urlMatch : string -> string -> Completion bool.

(** Modelled from the spec: the Userscript Instance Loader of [./hmr]
    (section 4.5), run after the teardown on what is left of the Live
    Module Set. The match re-check of Full is [Client.matchScript]. The
    loading of assets is the loop of [Client.loadScript] and is studied
    with the client. *)
Definition loader (env : Env) (d : Decision) (entry : string) (live : LiveSet)
  : Instance * list Event :=
  match d with
  | NoOp => ({| inst_entry := entry; inst_live := live |}, [])
  | Partial targets =>
      let '(live', evs) := exec_all (env_bundle env) targets live in
      ({| inst_entry := entry; inst_live := live' |}, evs)
  | Full =>
      let '(still, logs) :=
        Client.matchScript urlMatch (env_pageUrl env) (env_info env) in
      if still then
        let '(live', evs) :=
          exec_module (env_bundle env) (exec_fuel (env_bundle env)) entry live in
        ({| inst_entry := entry; inst_live := live' |}, map EvLog logs ++ evs)
      else
        ({| inst_entry := entry; inst_live := live |}, map EvLog logs)
  end.

(** Modelled from the spec: one change-event cycle of [./hmr]
    (sections 2 and 4.3): filter, decide, tear down, reload. *)
Definition cycle (env : Env) (changed : gset string) (st : Instance)
  : Instance * list Event :=
  let d := decision_of env changed st in
  match d with
  | NoOp => (st, [EvReport NoOp])
  | _ =>
      let '(live1, e1) := teardown d (inst_live st) in
      let '(st', e2) := loader env d (inst_entry st) live1 in
      (st', EvReport d :: e1 ++ e2)
  end.

End WithUrlMatch.

(** *** Vocabulary for the statements about the cycle *)

(** Modelled from the spec: the dispose callbacks of module [m] that a
    trace of [./hmr] runs, in the order it runs them. *)
Definition disposed_of (m : string) (trace : list Event) : list Callback :=
  flat_map (fun e =>
              match e with
              | EvDispose m' cb => if String.eqb m' m then [cb] else []
              | _ => []
              end) trace.

(** Modelled from the spec: the failures a trace of [./hmr] reports. *)
Definition reported_failures (trace : list Event) : list (string * nat * Exn) :=
  flat_map (fun e => match e with EvFailures l => l | _ => [] end) trace.

(** Modelled from the spec: the event of [./hmr] is a dispose callback
    run. *)
Definition is_dispose (e : Event) : bool :=
  match e with
  | EvDispose _ _ => true
  | _ => false
  end.

(** Modelled from the spec: the event of [./hmr] is a module starting to
    execute. *)
Definition is_exec (e : Event) : bool :=
  match e with
  | EvExec _ => true
  | _ => false
  end.

End Hmr.

(** ** The head of the client module and the vocabulary of its traces *)

Module ClientTop.
Import Js Client.

Section GlobalObject.

(** The values held by the properties of [__MK_GLOBAL__] and
    [__MK_INJECTION__]. *)
Variable Value : Type.

(** The three functions the client imports and puts on the global
    object. *)
Record ClientFunctions : Type := {
  GM_fetch : Value;
  miniCssExtractHmr : Value;
  styleLoaderInsertStyleElement : Value
}.

(** [Object.assign(target, source)] on the own properties of the two
    objects: every property of the source is written onto the target. *)
Definition object_assign (target source : gmap string Value) : gmap string Value :=
  source ∪ target.

(** The object literal
    [{ ...__MK_INJECTION__, GM_fetch, miniCssExtractHmr,
       styleLoaderInsertStyleElement }]: the spread comes first, the three
    named properties are defined after it. *)
Definition injected_properties (fns : ClientFunctions)
           (injection : gmap string Value) : gmap string Value :=
  <["styleLoaderInsertStyleElement" := styleLoaderInsertStyleElement fns]>
    (<["miniCssExtractHmr" := miniCssExtractHmr fns]>
       (<["GM_fetch" := GM_fetch fns]> injection)).

(** [Object.assign(__MK_GLOBAL__, { ... })]: the global object after the
    statement. *)
Definition assign_global (fns : ClientFunctions)
           (global injection : gmap string Value) : gmap string Value :=
  object_assign global (injected_properties fns injection).

End GlobalObject.

(** A scan by [some] stops on a pattern that matches, every pattern before
    it having been evaluated to a non-match. *)
Definition scan_hits (f : string -> Completion bool) (l : list string) : Prop :=
  exists before p after,
    l = before ++ p :: after
    /\ (forall q, In q before -> f q = Normal false)
    /\ f p = Normal true.

(** A scan by [some] is left by the exception [e] of a pattern, every
    pattern before it having been evaluated to a non-match. *)
Definition scan_throws (f : string -> Completion bool) (l : list string)
           (e : Exn) : Prop :=
  exists before p after,
    l = before ++ p :: after
    /\ (forall q, In q before -> f q = Normal false)
    /\ f p = Throw e.

(** The line [matchScript] hands to [log] in its [catch] block. *)
Definition match_error_log (s : UserscriptInfo) (e : Exn) : Effect :=
  Log ["Error matching script " +:+ dquote +:+ name s +:+ dquote +:+ ":"; e].

(** The calls one run of [loadScript] makes for a userscript it loads. *)
Definition load_effects (s : UserscriptInfo) : list Effect :=
  [Log ["Loading script:"; name s]; GlobalLoadScript (url s)]
    ++ map LoadCss (css_assets s).

(** The urls a trace hands to [__MK_GLOBAL__.loadScript], in order. *)
Definition script_loads (trace : list Effect) : list string :=
  flat_map (fun e => match e with GlobalLoadScript u => [u] | _ => [] end) trace.

(** What the calls of a trace have put on the page, in order: the scripts
    handed to [__MK_GLOBAL__.loadScript] and the stylesheets handed to
    [loadCss]. *)
Definition attached_by (trace : list Effect) : list string :=
  flat_map (fun e =>
              match e with
              | GlobalLoadScript u => [u]
              | LoadCss a => [a]
              | Log _ => []
              end) trace.

(** The asset side of a full reload as it is written. The page session
    starts on a fresh page and has run some evaluations of the client
    module; the page holds what their calls attached. An instance whose
    name is in the loaded set is reloaded, and [loadScript] is run for it:
    every stylesheet or script it declares that the page does not hold is
    asked for, and no asset the page holds is asked for again. *)
Definition full_reload_assets_as_written : Prop :=
  forall (urlMatch : string -> string -> Completion bool) hot loads s,
    initial_loadedScripts hot = [] ->
    In (name s) (map name (fst (session urlMatch hot loads))) ->
    (forall asset,
        In asset (assets s) ->
        endsWith asset ".css" = true \/ endsWith asset ".js" = true ->
        ~ In asset (attached_by (snd (session urlMatch hot loads))) ->
        requested asset (snd (loadScript s (fst (session urlMatch hot loads)))))
    /\ (forall asset,
           In asset (attached_by (snd (session urlMatch hot loads))) ->
           ~ requested asset (snd (loadScript s (fst (session urlMatch hot loads))))).

End ClientTop.

(** ** Concrete pages, userscripts and bundles used by the examples *)

Module Samples.
Import Js Client.

(** A stand-in for [urlMatch]: [*] matches every page, a pattern written
    between slashes is a regular expression and the unbalanced [/(/] makes
    its construction throw, any other pattern matches the page it spells. *)
Definition sample_urlMatch (pattern pageUrl : string) : Completion bool :=
  if String.eqb pattern "/(/"
  then Throw "SyntaxError: Invalid regular expression: /(/: Unterminated group"
  else Normal (String.eqb pattern "*" || String.eqb pattern pageUrl).

Definition page : string := "https://example.com/".

(** Matches every page; declares a script asset and a stylesheet. *)
Definition script_a : UserscriptInfo :=
  {| name := "a";
     url := "http://localhost:3000/a.user.js";
     meta := {| include := Undefined; match_ := Multiple ["*"]; exclude := Undefined |};
     assets := ["vendor.js"; "a.css"] |}.

(** The same userscript after an edit that adds a stylesheet. *)
Definition script_a_edited : UserscriptInfo :=
  {| name := "a";
     url := "http://localhost:3000/a.user.js";
     meta := {| include := Undefined; match_ := Multiple ["*"]; exclude := Undefined |};
     assets := ["vendor.js"; "a.css"; "extra.css"] |}.

(** Written for another site. *)
Definition script_off : UserscriptInfo :=
  {| name := "off";
     url := "http://localhost:3000/off.user.js";
     meta := {| include := Undefined; match_ := Single "https://other.org/"; exclude := Undefined |};
     assets := ["off.css"] |}.

(** Its first pattern cannot be evaluated, its second one matches. *)
Definition script_broken : UserscriptInfo :=
  {| name := "broken";
     url := "http://localhost:3000/broken.user.js";
     meta := {| include := Multiple ["/(/"; "*"]; match_ := Undefined; exclude := Undefined |};
     assets := ["broken.css"] |}.

(** Declares no pattern at all. *)
Definition script_bare : UserscriptInfo :=
  {| name := "bare";
     url := "http://localhost:3000/bare.user.js";
     meta := {| include := Undefined; match_ := Undefined; exclude := Undefined |};
     assets := [] |}.

(** The modules of a small userscript: the entry imports a helper, and
    both import a library. *)
Definition entry_id : string := "./src/index.ts".
Definition helper_id : string := "./src/helper.ts".
Definition lib_id : string := "./node_modules/lib/index.js".

Definition sample_graph : Hmr.Graph :=
  [(entry_id, helper_id); (entry_id, lib_id); (helper_id, lib_id)].

Definition cb_ok (n : nat) : Hmr.Callback :=
  {| Hmr.cb_id := n; Hmr.cb_error := None |}.

Definition cb_bad (n : nat) : Hmr.Callback :=
  {| Hmr.cb_id := n; Hmr.cb_error := Some "TypeError: element is null" |}.

(** The code the bundler offers after an edit. *)
Definition sample_bundle : Hmr.Bundle :=
  {| Hmr.graph := sample_graph;
     Hmr.code :=
       {[ entry_id := {| Hmr.code_disposers := [cb_ok 10];
                         Hmr.code_marker := Hmr.WholeReload |};
          helper_id := {| Hmr.code_disposers := [cb_ok 20; cb_ok 21];
                          Hmr.code_marker := Hmr.NoMarker |};
          lib_id := {| Hmr.code_disposers := [];
                       Hmr.code_marker := Hmr.NoMarker |} ]} |}.

Definition sample_env : Hmr.Env :=
  {| Hmr.env_ignore := Hmr.IgnoreMatchers [Hmr.MatchString "node_modules"];
     Hmr.env_bundle := sample_bundle;
     Hmr.env_info := script_a;
     Hmr.env_pageUrl := page |}.

(** The same cycle input after an edit of the meta that moved the
    userscript to another site. *)
Definition moved_env : Hmr.Env :=
  {| Hmr.env_ignore := Hmr.IgnoreMatchers [Hmr.MatchString "node_modules"];
     Hmr.env_bundle := sample_bundle;
     Hmr.env_info := script_off;
     Hmr.env_pageUrl := page |}.

(** A running instance whose entry asked for whole-instance reload; the
    first callback the entry registered throws when it is run. *)
Definition whole_instance : Hmr.Instance :=
  {| Hmr.inst_entry := entry_id;
     Hmr.inst_live :=
       {[ entry_id := {| Hmr.registered := [cb_bad 1; cb_ok 2];
                         Hmr.marker := Hmr.WholeReload |};
          helper_id := {| Hmr.registered := [cb_ok 3; cb_ok 4];
                          Hmr.marker := Hmr.SelfAccept |};
          lib_id := Hmr.fresh_record ]} |}.

(** A running instance without whole-instance reload, whose helper
    self-accepted. *)
Definition accepting_instance : Hmr.Instance :=
  {| Hmr.inst_entry := entry_id;
     Hmr.inst_live :=
       {[ entry_id := {| Hmr.registered := [cb_ok 1];
                         Hmr.marker := Hmr.NoMarker |};
          helper_id := {| Hmr.registered := [cb_bad 3; cb_ok 4];
                          Hmr.marker := Hmr.SelfAccept |};
          lib_id := Hmr.fresh_record ]} |}.

End Samples.

Module MoreSamples.
Import Js Client Samples.

(** Its exclude pattern cannot be evaluated, and no include pattern matches
    the page. *)
Definition script_elsewhere : UserscriptInfo :=
  {| name := "elsewhere";
     url := "http://localhost:3000/elsewhere.user.js";
     meta := {| include := Single "https://other.org/"; match_ := Undefined;
                exclude := Single "/(/" |};
     assets := [] |}.

(** Matches every page, but its exclude pattern cannot be evaluated. *)
Definition script_bad_exclude : UserscriptInfo :=
  {| name := "bad-exclude";
     url := "http://localhost:3000/bad-exclude.user.js";
     meta := {| include := Single "*"; match_ := Undefined;
                exclude := Multiple ["https://other.org/"; "/(/"] |};
     assets := [] |}.

(** Written for two sites, one of them the sample page. *)
Definition script_two_sites : UserscriptInfo :=
  {| name := "two-sites";
     url := "http://localhost:3000/two.user.js";
     meta := {| include := Multiple ["https://other.org/"];
                match_ := Single "https://example.com/";
                exclude := Multiple ["https://a.org/"; "https://b.org/"] |};
     assets := ["two.css"] |}.

(** The patterns of [script_two_sites] declared the other way round. *)
Definition script_two_sites_swapped : UserscriptInfo :=
  {| name := "two-sites";
     url := "http://localhost:3000/two.user.js";
     meta := {| include := Single "https://example.com/";
                match_ := Single "https://other.org/";
                exclude := Multiple ["https://b.org/"; "https://a.org/"] |};
     assets := ["two.css"] |}.

(** A second build of the userscript [a], served from another url. *)
Definition script_a_again : UserscriptInfo :=
  {| name := "a";
     url := "http://localhost:3000/a-copy.user.js";
     meta := {| include := Single "*"; match_ := Undefined; exclude := Undefined |};
     assets := ["copy.css"] |}.

(** The global object as the dev script leaves it, and two injections. *)
Definition dev_global : gmap string string :=
  {[ "loadScript" := "function loadScript of the dev script";
     "inspectRuntime" := "function inspectRuntime of the dev script";
     "GM_fetch" := "an older GM_fetch" ]}.

Definition first_injection : gmap string string :=
  {[ "userscripts" := "the userscripts of the first build";
     "debug" := "true";
     "GM_fetch" := "a GM_fetch that came with the injection" ]}.

Definition second_injection : gmap string string :=
  {[ "userscripts" := "the userscripts of the second build" ]}.

Definition client_functions : ClientTop.ClientFunctions string :=
  {| ClientTop.GM_fetch := "GM_fetch of the client";
     ClientTop.miniCssExtractHmr := "miniCssExtractHmr of the client";
     ClientTop.styleLoaderInsertStyleElement :=
       "styleLoaderInsertStyleElement of the client" |}.

End MoreSamples.

(** * Properties of the client module *)

Import Js Client.

Section ClientProperties.

Variable urlMatch : string -> string -> Completion bool.

Lemma filter_matchScript_app pageUrl (a b : list UserscriptInfo) :
  filter_matchScript urlMatch pageUrl (a ++ b)
  = (fst (filter_matchScript urlMatch pageUrl a)
       ++ fst (filter_matchScript urlMatch pageUrl b),
     snd (filter_matchScript urlMatch pageUrl a)
       ++ snd (filter_matchScript urlMatch pageUrl b)).
Proof.
  induction a as [|s a IH]; simpl.
  - by destruct (filter_matchScript urlMatch pageUrl b).
  - rewrite IH.
    destruct (matchScript urlMatch pageUrl s) as [hit e1].
    destruct (filter_matchScript urlMatch pageUrl a) as [ka ea]; simpl.
    rewrite <- app_assoc. by destruct hit.
Qed.

Lemma filter_matchScript_cons pageUrl s (r : list UserscriptInfo) :
  filter_matchScript urlMatch pageUrl (s :: r)
  = ((if fst (matchScript urlMatch pageUrl s) then [s] else [])
       ++ fst (filter_matchScript urlMatch pageUrl r),
     snd (matchScript urlMatch pageUrl s)
       ++ snd (filter_matchScript urlMatch pageUrl r)).
Proof.
  simpl. destruct (matchScript urlMatch pageUrl s) as [hit e1].
  destruct (filter_matchScript urlMatch pageUrl r) as [kr er]; simpl.
  by destruct hit.
Qed.

(** What [filter] keeps are elements of the array that passed the test. *)
Lemma filter_matchScript_kept pageUrl (l : list UserscriptInfo) x :
  In x (fst (filter_matchScript urlMatch pageUrl l)) ->
  In x l /\ fst (matchScript urlMatch pageUrl x) = true.
Proof.
  induction l as [|s r IH]; [by simpl |].
  rewrite filter_matchScript_cons; simpl. rewrite in_app_iff.
  intros [Hs | Hr].
  - destruct (fst (matchScript urlMatch pageUrl s)) eqn:E; simpl in Hs; [|done].
    destruct Hs as [-> | []]. auto.
  - destruct (IH Hr). auto.
Qed.

(** Dropping an element that fails the test leaves the kept ones as they
    are. *)
Lemma filter_matchScript_drop pageUrl before s after :
  fst (matchScript urlMatch pageUrl s) = false ->
  fst (filter_matchScript urlMatch pageUrl (before ++ s :: after))
  = fst (filter_matchScript urlMatch pageUrl (before ++ after)).
Proof.
  intros Hs. rewrite !filter_matchScript_app, filter_matchScript_cons; simpl.
  by rewrite Hs.
Qed.

Lemma forEach_loadScript_In matched : forall loaded x,
  In x (fst (forEach_loadScript matched loaded)) -> In x loaded \/ In x matched.
Proof.
  induction matched as [|s r IH]; intros loaded x; simpl; [auto |].
  destruct (loadScript s loaded) as [l1 e1] eqn:E1.
  destruct (forEach_loadScript r l1) as [l2 e2] eqn:E2; simpl.
  intros Hx. specialize (IH l1 x). rewrite E2 in IH. destruct (IH Hx) as [H1 | Hr]; [|auto].
  unfold loadScript in E1.
  destruct (find _ loaded); inversion E1; subst; [auto |].
  apply in_app_iff in H1 as [? | [-> | []]]; auto.
Qed.

Lemma load_phase_drop pageUrl hot before s after :
  fst (matchScript urlMatch pageUrl s) = false ->
  load_phase urlMatch (before ++ s :: after) pageUrl hot
  = load_phase urlMatch (before ++ after) pageUrl hot.
Proof.
  intros Hs. unfold load_phase. by rewrite filter_matchScript_drop.
Qed.

(** C1. When the client module is evaluated (first load, or again after a
    hot replacement) every userscript is tested against the page location
    of that moment, and one that does not match is dropped: the loaded set
    and the effects of the load phase are those of the list without it (no
    [__MK_GLOBAL__.loadScript], no [loadCss] on its behalf), and if it is in
    the loaded set afterwards it was there before this evaluation. *)
Theorem C1_nonmatching_instance_dropped pageUrl hot before s after :
  fst (matchScript urlMatch pageUrl s) = false ->
  load_phase urlMatch (before ++ s :: after) pageUrl hot
  = load_phase urlMatch (before ++ after) pageUrl hot
  /\ (In s (fst (load_phase urlMatch (before ++ s :: after) pageUrl hot)) ->
      In s (initial_loadedScripts hot)).
Proof.
  intros Hs. split; [by apply load_phase_drop |].
  intros Hin. apply forEach_loadScript_In in Hin as [? | Hm]; [done |].
  apply filter_matchScript_kept in Hm as [_ Hm]. congruence.
Qed.

(** C2. When the evaluation of a userscript's patterns throws, [matchScript]
    still returns: its answer is [false] and the exception went to [log].
    The [filter] goes on with the other userscripts, which are kept and
    loaded exactly as if the failing one were not in the list. *)
Theorem C2_match_exception_isolated pageUrl hot before s after e :
  matchScript_try urlMatch pageUrl (meta s) = Throw e ->
  matchScript urlMatch pageUrl s
  = (false, [Log ["Error matching script " +:+ dquote +:+ name s +:+ dquote +:+ ":"; e]])
  /\ filter_matchScript urlMatch pageUrl (before ++ s :: after)
     = (fst (filter_matchScript urlMatch pageUrl before)
          ++ fst (filter_matchScript urlMatch pageUrl after),
        snd (filter_matchScript urlMatch pageUrl before)
          ++ Log ["Error matching script " +:+ dquote +:+ name s +:+ dquote +:+ ":"; e]
          :: snd (filter_matchScript urlMatch pageUrl after))
  /\ load_phase urlMatch (before ++ s :: after) pageUrl hot
     = load_phase urlMatch (before ++ after) pageUrl hot.
Proof.
  intros Hthrow.
  assert (Hm : matchScript urlMatch pageUrl s
               = (false, [Log ["Error matching script " +:+ dquote +:+ name s
                                 +:+ dquote +:+ ":"; e]])).
  { unfold matchScript. by rewrite Hthrow. }
  split; [done |]. split.
  - rewrite filter_matchScript_app, filter_matchScript_cons, Hm. reflexivity.
  - apply load_phase_drop. by rewrite Hm.
Qed.

End ClientProperties.

Section LoadedSet.

Variable urlMatch : string -> string -> Completion bool.

Lemma find_name_known script (loaded : list UserscriptInfo) :
  In (name script) (map name loaded) ->
  exists x, List.find (fun s => String.eqb (name s) (name script)) loaded = Some x.
Proof.
  induction loaded as [|y r IH]; simpl; [done |].
  intros [Hy | Hr].
  - exists y. by rewrite Hy, String.eqb_refl.
  - destruct (String.eqb (name y) (name script)); eauto.
Qed.

Lemma find_name_unknown script (loaded : list UserscriptInfo) :
  List.find (fun s => String.eqb (name s) (name script)) loaded = None ->
  ~ In (name script) (map name loaded).
Proof.
  intros Hnone Hin. destruct (find_name_known _ _ Hin) as [x Hx]. congruence.
Qed.

(** A userscript whose name is in the loaded set: [loadScript] returns at
    its first statement. *)
Lemma loadScript_known script loaded :
  In (name script) (map name loaded) -> loadScript script loaded = (loaded, []).
Proof.
  intros Hin. unfold loadScript.
  by destruct (find_name_known _ _ Hin) as [x ->].
Qed.

Lemma loadScript_NoDup script loaded :
  NoDup (map name loaded) -> NoDup (map name (fst (loadScript script loaded))).
Proof.
  intros Hnd. unfold loadScript.
  destruct (find _ loaded) eqn:E; simpl; [done |].
  apply find_name_unknown in E.
  rewrite map_app. apply NoDup_app. split; [done |]. split.
  - intros x Hx Hs. apply list_elem_of_singleton in Hs. subst x.
    apply E. by apply list_elem_of_In.
  - apply NoDup_singleton.
Qed.

Lemma forEach_loadScript_NoDup matched : forall loaded,
  NoDup (map name loaded) ->
  NoDup (map name (fst (forEach_loadScript matched loaded))).
Proof.
  induction matched as [|s r IH]; intros loaded Hnd; simpl; [done |].
  pose proof (loadScript_NoDup s loaded Hnd) as H1.
  destruct (loadScript s loaded) as [l1 e1]. simpl in H1.
  specialize (IH l1 H1). by destruct (forEach_loadScript r l1).
Qed.

Lemma client_module_fst userscripts pageUrl hot :
  fst (client_module urlMatch userscripts pageUrl hot)
  = fst (load_phase urlMatch userscripts pageUrl hot).
Proof.
  unfold client_module. by destruct (load_phase urlMatch userscripts pageUrl hot).
Qed.

Lemma initial_after_dispose loaded :
  initial_loadedScripts (hot_after_dispose loaded) = loaded.
Proof. reflexivity. Qed.

Lemma session_NoDup loads : forall hot,
  NoDup (map name (initial_loadedScripts hot)) ->
  NoDup (map name (fst (session urlMatch hot loads))).
Proof.
  induction loads as [|[userscripts pageUrl] rest IH]; intros hot Hnd; simpl; [done |].
  pose proof (client_module_fst userscripts pageUrl hot) as Hfst.
  destruct (client_module urlMatch userscripts pageUrl hot) as [loaded e1].
  simpl in Hfst. subst loaded.
  specialize (IH (hot_after_dispose (fst (load_phase urlMatch userscripts pageUrl hot)))).
  rewrite initial_after_dispose in IH.
  destruct (session urlMatch _ rest) as [final e2]. simpl in *.
  apply IH. unfold load_phase. by apply forEach_loadScript_NoDup.
Qed.

End LoadedSet.

Section MatchRule.

Variable urlMatch : string -> string -> Completion bool.

Lemma some_true_iff {A} (f : A -> Completion bool) (l : list A) :
  some f l = Normal true <->
  exists before p after,
    l = before ++ p :: after
    /\ (forall q, In q before -> f q = Normal false)
    /\ f p = Normal true.
Proof.
  induction l as [|x r IH]; simpl.
  - split; [done |]. intros (before & p & after & Heq & _). by destruct before.
  - unfold mbind, Completion_bind.
    destruct (f x) as [[|]|e] eqn:E.
    + split; [|done]. intros _. exists [], x, r. by repeat split.
    + rewrite IH. split.
      * intros (before & p & after & -> & Hb & Hp).
        exists (x :: before), p, after. repeat split; [|done].
        intros q [<- | Hq]; auto.
      * intros (before & p & after & Heq & Hb & Hp).
        destruct before as [|y before]; simpl in Heq; inversion Heq; subst.
        -- congruence.
        -- exists before, p, after. repeat split; [|done].
           intros q Hq. apply Hb. by right.
    + split; [done |].
      intros (before & p & after & Heq & Hb & Hp).
      destruct before as [|y before]; simpl in Heq; inversion Heq; subst.
      * congruence.
      * specialize (Hb y (or_introl eq_refl)). congruence.
Qed.

Lemma some_false_iff {A} (f : A -> Completion bool) (l : list A) :
  some f l = Normal false <-> forall q, In q l -> f q = Normal false.
Proof.
  induction l as [|x r IH]; simpl.
  - split; [by intros _ q [] | done].
  - unfold mbind, Completion_bind.
    destruct (f x) as [[|]|e] eqn:E.
    + split; [done |]. intros H. specialize (H x (or_introl eq_refl)). congruence.
    + rewrite IH. split.
      * intros H q [<- | Hq]; auto.
      * intros H q Hq. apply H. by right.
    + split; [done |]. intros H. specialize (H x (or_introl eq_refl)). congruence.
Qed.

(** A scan throws when a callback throws before any pattern matched. *)
Lemma some_throw {A} (f : A -> Completion bool) (before : list A) p after e :
  (forall q, In q before -> f q = Normal false) ->
  f p = Throw e ->
  some f (before ++ p :: after) = Throw e.
Proof.
  intros Hb Hp. induction before as [|x r IH]; simpl.
  - unfold mbind, Completion_bind. by rewrite Hp.
  - unfold mbind, Completion_bind. rewrite (Hb x (or_introl eq_refl)).
    apply IH. intros q Hq. apply Hb. by right.
Qed.

(** A pattern of include or match that cannot be evaluated, met before any
    pattern matched, makes the whole test throw. *)
Lemma matchScript_try_throws pageUrl m before p after e :
  include_patterns m = before ++ p :: after ->
  (forall q, In q before -> urlMatch q pageUrl = Normal false) ->
  urlMatch p pageUrl = Throw e ->
  matchScript_try urlMatch pageUrl m = Throw e.
Proof.
  intros Heq Hb Hp. unfold matchScript_try.
  change (flat (compact [include m; match_ m])) with (include_patterns m).
  rewrite Heq.
  rewrite (some_throw (fun pattern => urlMatch pattern pageUrl) before p after e Hb Hp).
  reflexivity.
Qed.

(** The answer of [matchScript] in terms of its two scans. *)
Lemma matchScript_true_iff pageUrl s :
  fst (matchScript urlMatch pageUrl s) = true <->
  some (fun p => urlMatch p pageUrl) (include_patterns (meta s)) = Normal true
  /\ some (fun p => urlMatch p pageUrl) (exclude_patterns (meta s)) = Normal false.
Proof.
  unfold matchScript, matchScript_try, include_patterns, exclude_patterns.
  unfold mbind, Completion_bind.
  destruct (some (fun p => urlMatch p pageUrl)
                 (flat (compact [include (meta s); match_ (meta s)])))
    as [[|]|e1].
  - destruct (some (fun p => urlMatch p pageUrl)
                   (flat (compact [exclude (meta s)]))) as [[|]|e2]; cbn [fst negb].
    + split; [done | by intros [_ ?]].
    + by split.
    + split; [done | by intros [_ ?]].
  - cbn [fst]. split; [done | by intros [? _]].
  - cbn [fst]. split; [done | by intros [? _]].
Qed.

End MatchRule.

Section MatchRuleExact.

Variable urlMatch : string -> string -> Completion bool.

(** C10, as the code has it. A userscript matches exactly when some
    pattern of include-then-match matches the page, every pattern before
    it in that list having been evaluated to a non-match, and every
    pattern of exclude is evaluated to a non-match; an evaluation that
    throws before the answer is settled makes the userscript not match.
    When no pattern throws this is: some pattern of include or match
    matches and none of exclude does. A userscript with no include and no
    match pattern matches on no page and an evaluation of the client
    module does not load it. *)
Theorem C10_match_rule pageUrl s :
  (fst (matchScript urlMatch pageUrl s) = true <->
   (exists before p after,
       include_patterns (meta s) = before ++ p :: after
       /\ (forall q, In q before -> urlMatch q pageUrl = Normal false)
       /\ urlMatch p pageUrl = Normal true)
   /\ (forall q, In q (exclude_patterns (meta s)) ->
                 urlMatch q pageUrl = Normal false))
  /\ ((forall q, In q (include_patterns (meta s) ++ exclude_patterns (meta s)) ->
                 exists b, urlMatch q pageUrl = Normal b) ->
      (fst (matchScript urlMatch pageUrl s) = true <->
       (exists p, In p (include_patterns (meta s))
                  /\ urlMatch p pageUrl = Normal true)
       /\ (forall p, In p (exclude_patterns (meta s)) ->
                     urlMatch p pageUrl <> Normal true)))
  /\ (include_patterns (meta s) = [] ->
      fst (matchScript urlMatch pageUrl s) = false
      /\ forall hot before after,
          load_phase urlMatch (before ++ s :: after) pageUrl hot
          = load_phase urlMatch (before ++ after) pageUrl hot).
Proof.
  assert (Hexact :
    fst (matchScript urlMatch pageUrl s) = true <->
    (exists before p after,
        include_patterns (meta s) = before ++ p :: after
        /\ (forall q, In q before -> urlMatch q pageUrl = Normal false)
        /\ urlMatch p pageUrl = Normal true)
    /\ (forall q, In q (exclude_patterns (meta s)) ->
                  urlMatch q pageUrl = Normal false)).
  { rewrite matchScript_true_iff, some_true_iff, some_false_iff. reflexivity. }
  split; [exact Hexact |]. split.
  - intros Htotal. rewrite Hexact. split.
    + intros [(before & p & after & Heq & _ & Hp) Hex]. split.
      * exists p. split; [|done]. rewrite Heq. apply in_app_iff. right. by left.
      * intros q Hq. rewrite (Hex q Hq). congruence.
    + intros [(p & Hin & Hp) Hex]. split.
      * assert (Hsome : some (fun q => urlMatch q pageUrl) (include_patterns (meta s))
                        = Normal true).
        { assert (Hinc : forall q, In q (include_patterns (meta s)) ->
                                   exists b, urlMatch q pageUrl = Normal b).
          { intros q Hq. apply Htotal, in_app_iff. by left. }
          clear Htotal Hex Hexact.
          induction (include_patterns (meta s)) as [|x r IH]; [done |].
          simpl. unfold mbind, Completion_bind.
          destruct (Hinc x (or_introl eq_refl)) as [[|] Hx]; rewrite Hx; [done |].
          destruct Hin as [-> | Hin]; [congruence |].
          apply IH; [done |]. intros q Hq. apply Hinc. by right. }
        by apply some_true_iff in Hsome.
      * intros q Hq.
        destruct (Htotal q) as [[|] Hb]; [apply in_app_iff; by right | | done].
        by destruct (Hex q Hq).
  - intros Hnone.
    assert (Hfalse : fst (matchScript urlMatch pageUrl s) = false).
    { apply not_true_is_false. intros E.
      apply Hexact in E as [(before & p & after & Heq & _) _].
      rewrite Hnone in Heq. by destruct before. }
    split; [done |]. intros hot before after. by apply load_phase_drop.
Qed.

End MatchRuleExact.

Section Sessions.

Variable urlMatch : string -> string -> Completion bool.

Lemma css_requests_app (t1 t2 : list Effect) :
  css_requests (t1 ++ t2) = css_requests t1 ++ css_requests t2.
Proof. unfold css_requests. by rewrite flat_map_app. Qed.

Lemma css_requests_LoadCss (l : list string) :
  css_requests (map LoadCss l) = l.
Proof. induction l as [|a r IH]; simpl; [done | by rewrite IH]. Qed.

(** The tests of [filter(matchScript)] only log. *)
Lemma css_requests_matching pageUrl (l : list UserscriptInfo) :
  css_requests (snd (filter_matchScript urlMatch pageUrl l)) = [].
Proof.
  induction l as [|s r IH]; [done |].
  rewrite filter_matchScript_cons; simpl. rewrite css_requests_app, IH.
  unfold matchScript. by destruct (matchScript_try urlMatch pageUrl (meta s)).
Qed.

(** One call of [loadScript]: the loaded set grows by at most the
    userscript, and [loadCss] gets the stylesheets of what was added. *)
Lemma loadScript_requests script loaded :
  exists new,
    fst (loadScript script loaded) = loaded ++ new
    /\ css_requests (snd (loadScript script loaded)) = flat_map css_assets new.
Proof.
  unfold loadScript. destruct (find _ loaded).
  - exists []. by rewrite app_nil_r.
  - exists [script]. split; [done |]. cbn [snd flat_map].
    rewrite css_requests_app, css_requests_LoadCss, app_nil_r. reflexivity.
Qed.

Lemma forEach_loadScript_requests matched : forall loaded,
  exists new,
    fst (forEach_loadScript matched loaded) = loaded ++ new
    /\ css_requests (snd (forEach_loadScript matched loaded))
       = flat_map css_assets new.
Proof.
  induction matched as [|s r IH]; intros loaded; simpl.
  - exists []. by rewrite app_nil_r.
  - destruct (loadScript_requests s loaded) as (n1 & H1 & R1).
    destruct (loadScript s loaded) as [l1 e1]. simpl in H1, R1. subst l1.
    destruct (IH (loaded ++ n1)) as (n2 & H2 & R2).
    destruct (forEach_loadScript r (loaded ++ n1)) as [l2 e2]. simpl in *.
    exists (n1 ++ n2). rewrite H2, css_requests_app, R1, R2, flat_map_app.
    by rewrite <- app_assoc.
Qed.

Lemma client_module_requests userscripts pageUrl hot :
  exists new,
    fst (client_module urlMatch userscripts pageUrl hot)
    = initial_loadedScripts hot ++ new
    /\ css_requests (snd (client_module urlMatch userscripts pageUrl hot))
       = flat_map css_assets new.
Proof.
  unfold client_module, load_phase.
  destruct (forEach_loadScript_requests
              (fst (filter_matchScript urlMatch pageUrl userscripts))
              (initial_loadedScripts hot)) as (new & H1 & R1).
  destruct (forEach_loadScript _ _) as [loaded e2]. simpl in *.
  exists new. split; [done |].
  by rewrite css_requests_app, css_requests_matching, R1.
Qed.

Lemma session_requests loads : forall hot,
  exists new,
    fst (session urlMatch hot loads) = initial_loadedScripts hot ++ new
    /\ css_requests (snd (session urlMatch hot loads)) = flat_map css_assets new.
Proof.
  induction loads as [|[userscripts pageUrl] rest IH]; intros hot; simpl.
  - exists []. by rewrite app_nil_r.
  - destruct (client_module_requests userscripts pageUrl hot) as (n1 & H1 & R1).
    destruct (client_module urlMatch userscripts pageUrl hot) as [loaded e1].
    simpl in H1, R1. subst loaded.
    destruct (IH (hot_after_dispose (initial_loadedScripts hot ++ n1)))
      as (n2 & H2 & R2).
    rewrite initial_after_dispose in H2.
    destruct (session urlMatch _ rest) as [final e2]. simpl in *.
    exists (n1 ++ n2). rewrite H2, css_requests_app, R1, R2, flat_map_app.
    by rewrite <- app_assoc.
Qed.

(** C3. The loaded set handed to the dispose handler is the one the next
    evaluation of the client module starts from, and every evaluation keeps
    what it started from; [loadScript] on a userscript whose name is in the
    loaded set changes nothing and calls nothing; and through any number of
    evaluations and hot replacements no name is in the loaded set twice. *)
Theorem C3_loaded_set_preserved_and_duplicate_free
        hot loads script (loaded : list UserscriptInfo) :
  initial_loadedScripts (hot_after_dispose loaded) = loaded
  /\ (exists new,
         fst (session urlMatch hot loads) = initial_loadedScripts hot ++ new)
  /\ (In (name script) (map name loaded) ->
      loadScript script loaded = (loaded, []))
  /\ (NoDup (map name (initial_loadedScripts hot)) ->
      NoDup (map name (fst (session urlMatch hot loads)))).
Proof.
  split; [reflexivity |]. split; [| split].
  - destruct (session_requests loads hot) as (new & Hnew & _). eauto.
  - apply loadScript_known.
  - apply session_NoDup.
Qed.

End Sessions.

(** ** The client on a concrete page *)

Import Samples.

(** One evaluation: the test of [script_broken] logs its exception, then
    [script_a] alone is loaded, with its stylesheet and not its script
    asset. *)
Example client_module_first_load :
  client_module sample_urlMatch [script_off; script_broken; script_a; script_bare]
                page None
  = ([script_a],
     [Log ["Error matching script " +:+ dquote +:+ "broken" +:+ dquote +:+ ":";
           "SyntaxError: Invalid regular expression: /(/: Unterminated group"];
      Log ["Loading script:"; "a"];
      GlobalLoadScript "http://localhost:3000/a.user.js";
      LoadCss "a.css"]).
Proof. reflexivity. Qed.

(** A hot replacement of the client after an edit of [script_a]: the second
    evaluation finds the name in the loaded set and calls nothing. *)
Example session_reload_loads_nothing_again :
  session sample_urlMatch None
          [([script_a], page); ([script_a_edited; script_off], page)]
  = ([script_a],
     [Log ["Loading script:"; "a"];
      GlobalLoadScript "http://localhost:3000/a.user.js";
      LoadCss "a.css"]).
Proof. reflexivity. Qed.

Example endsWith_css :
  endsWith "a.css" ".css" = true /\ endsWith ".css" ".css" = true
  /\ endsWith "css" ".css" = false /\ endsWith "a.css.map" ".css" = false.
Proof. repeat split. Qed.

Lemma C1_nonmatching_instance_dropped_witness :
  fst (matchScript sample_urlMatch page script_off) = false
  /\ (load_phase sample_urlMatch ([script_a] ++ script_off :: [script_bare]) page None
      = load_phase sample_urlMatch ([script_a] ++ [script_bare]) page None
      /\ (In script_off
             (fst (load_phase sample_urlMatch
                              ([script_a] ++ script_off :: [script_bare]) page None)) ->
          In script_off (initial_loadedScripts None))).
Proof.
  split; [reflexivity |].
  apply (C1_nonmatching_instance_dropped
           sample_urlMatch page None [script_a] script_off [script_bare]).
  reflexivity.
Defined.

Lemma C2_match_exception_isolated_witness :
  matchScript_try sample_urlMatch page (meta script_broken)
  = Throw "SyntaxError: Invalid regular expression: /(/: Unterminated group"
  /\ fst (filter_matchScript sample_urlMatch page
                             ([script_off] ++ script_broken :: [script_a]))
     = [script_a]
  /\ load_phase sample_urlMatch ([script_off] ++ script_broken :: [script_a]) page None
     = load_phase sample_urlMatch ([script_off] ++ [script_a]) page None.
Proof.
  split; [reflexivity |].
  destruct (C2_match_exception_isolated
              sample_urlMatch page None [script_off] script_broken [script_a]
              "SyntaxError: Invalid regular expression: /(/: Unterminated group"
              eq_refl) as (_ & Hfilter & Hload).
  split; [| exact Hload].
  rewrite Hfilter. reflexivity.
Defined.

Lemma C3_loaded_set_preserved_and_duplicate_free_witness :
  In (name script_a_edited) (map name [script_a])
  /\ NoDup (map name (initial_loadedScripts None))
  /\ loadScript script_a_edited [script_a] = ([script_a], [])
  /\ NoDup (map name (fst (session sample_urlMatch None
                                   [([script_a; script_off], page);
                                    ([script_a_edited; script_broken], page)]))).
Proof.
  destruct (C3_loaded_set_preserved_and_duplicate_free
              sample_urlMatch None
              [([script_a; script_off], page); ([script_a_edited; script_broken], page)]
              script_a_edited [script_a]) as (_ & _ & Hknown & Hnodup).
  assert (Hin : In (name script_a_edited) (map name [script_a])) by (simpl; auto).
  assert (Hnil : NoDup (map name (initial_loadedScripts None))) by constructor.
  split; [exact Hin |]. split; [exact Hnil |]. split; [exact (Hknown Hin) |].
  exact (Hnodup Hnil).
Defined.

(** C10 as written fails on the code: the second include pattern of
    [script_broken] matches the page and it has no exclude pattern, yet
    the userscript does not match, because the evaluation of its first
    pattern throws. *)
Lemma C10_match_rule_as_written_fails : ~ match_rule_as_written.
Proof.
  intros H.
  destruct (H sample_urlMatch page script_broken) as [_ Hback].
  assert (Hyes : fst (matchScript sample_urlMatch page script_broken) = true).
  { apply Hback. split.
    - exists "*". split; [simpl; auto | reflexivity].
    - intros p []. }
  vm_compute in Hyes. discriminate Hyes.
Qed.

Lemma C10_match_rule_witness :
  include_patterns (meta script_bare) = []
  /\ fst (matchScript sample_urlMatch page script_bare) = false
  /\ fst (matchScript sample_urlMatch page script_a) = true.
Proof.
  split; [reflexivity |].
  destruct (C10_match_rule sample_urlMatch page script_bare) as (_ & _ & Hbare).
  destruct (C10_match_rule sample_urlMatch page script_a) as (Hexact & _).
  split; [exact (proj1 (Hbare eq_refl)) |].
  apply Hexact. split.
  - exists [], "*", []. split; [reflexivity |]. split; [by intros q [] | reflexivity].
  - intros q [].
Defined.

(** * Properties of the reload cycle *)

Import Hmr.

Section Registry.

Implicit Types (live : gmap string ModuleRecord) (m t : string).

Lemma record_of_clear live t m :
  record_of (clear t live) m
  = if decide (t = m)
    then {| registered := []; marker := marker (record_of live m) |}
    else record_of live m.
Proof.
  unfold record_of, clear. rewrite lookup_alter.
  destruct (decide (t = m)) as [-> |]; [|done].
  by destruct (live !! m).
Qed.

(** [clear] empties the stack of its module and no other. *)
Lemma getDisposeStack_clear live t m :
  getDisposeStack (clear t live) m
  = if decide (t = m) then [] else getDisposeStack live m.
Proof.
  unfold getDisposeStack. rewrite record_of_clear.
  by destruct (decide (t = m)).
Qed.

(** [clear] is idempotent. *)
Lemma clear_idemp live t : clear t (clear t live) = clear t live.
Proof.
  apply map_eq. intros i. unfold clear. rewrite !lookup_alter.
  destruct (decide (t = i)); [|done].
  destruct (decide (t = t)); [|done]. by destruct (live !! t).
Qed.

Lemma record_of_registerDispose live t cb m :
  record_of (registerDispose t cb live) m
  = if decide (t = m)
    then {| registered := registered (record_of live m) ++ [cb];
            marker := marker (record_of live m) |}
    else record_of live m.
Proof.
  unfold registerDispose. unfold record_of at 1. rewrite lookup_insert.
  destruct (decide (t = m)) as [-> |]; done.
Qed.

(** The callback registered last is the first of the stack. *)
Lemma getDisposeStack_registerDispose live m cb :
  getDisposeStack (registerDispose m cb live) m = cb :: getDisposeStack live m.
Proof.
  unfold getDisposeStack. rewrite record_of_registerDispose.
  destruct (decide (m = m)); [|done]. simpl. by rewrite rev_app_distr.
Qed.

(** Registrations made one after the other are found in the stack in the
    reverse order, above what the stack held. *)
Lemma getDisposeStack_registrations m (cbs : list Callback) : forall live,
  getDisposeStack (foldl (fun acc cb => registerDispose m cb acc) live cbs) m
  = rev cbs ++ getDisposeStack live m.
Proof.
  induction cbs as [|cb r IH]; intros live; simpl; [done |].
  rewrite IH, getDisposeStack_registerDispose, <- app_assoc. reflexivity.
Qed.

Lemma getDisposeStack_unknown live m :
  live !! m = None -> getDisposeStack live m = [].
Proof. intros H. unfold getDisposeStack, record_of. by rewrite H. Qed.

End Registry.

Section Teardown.

Implicit Types (live : gmap string ModuleRecord) (m t : string).

Lemma disposed_of_app m (t1 t2 : list Event) :
  disposed_of m (t1 ++ t2) = disposed_of m t1 ++ disposed_of m t2.
Proof. unfold disposed_of. by rewrite flat_map_app. Qed.

Lemma disposed_of_In m cb (trace : list Event) :
  In cb (disposed_of m trace) <-> In (EvDispose m cb) trace.
Proof.
  unfold disposed_of. rewrite in_flat_map. split.
  - intros (e & He & Hcb). destruct e as [| m' cb' | | |]; try done.
    destruct (String.eqb m' m) eqn:E; [|done].
    apply String.eqb_eq in E. destruct Hcb as [-> | []]. by subst.
  - intros H. exists (EvDispose m cb). split; [done |].
    rewrite String.eqb_refl. by left.
Qed.

(** Draining a stack runs each of its callbacks, first to last, whatever
    any of them throws. *)
Lemma drain_stack_disposed t m (cbs : list Callback) :
  disposed_of m (fst (drain_stack t cbs)) = if decide (t = m) then cbs else [].
Proof.
  induction cbs as [|cb r IH]; simpl.
  - by destruct (decide (t = m)).
  - destruct (drain_stack t r) as [evs fails]. simpl in IH.
    assert (Hhead : disposed_of m (EvDispose t cb :: evs)
                    = if decide (t = m) then cb :: r else []).
    { unfold disposed_of in *. simpl. rewrite IH.
      destruct (decide (t = m)) as [-> | Hne].
      - by rewrite String.eqb_refl.
      - apply String.eqb_neq in Hne. by rewrite Hne. }
    by destruct (run_callback cb).
Qed.

Lemma drain_stack_events t (cbs : list Callback) :
  fst (drain_stack t cbs) = map (EvDispose t) cbs.
Proof.
  induction cbs as [|cb r IH]; simpl; [done |].
  destruct (drain_stack t r) as [evs fails]. simpl in IH. subst evs.
  by destruct (run_callback cb).
Qed.

(** Every callback that throws while its stack is drained is collected. *)
Lemma drain_stack_failures t (cbs : list Callback) cb e :
  In cb cbs -> cb_error cb = Some e ->
  In (t, cb_id cb, e) (snd (drain_stack t cbs)).
Proof.
  induction cbs as [|c r IH]; simpl; [done |].
  intros Hin He. destruct (drain_stack t r) as [evs fails]. simpl in IH.
  destruct Hin as [-> | Hin].
  - unfold run_callback. rewrite He. by left.
  - destruct (run_callback c); simpl; auto.
Qed.

(** The sweep runs, for each targeted module, exactly the stack the module
    had when the sweep began, and nothing for the other modules. *)
Lemma sweep_disposed (targets : list string) : forall live m,
  disposed_of m (snd (fst (sweep targets live)))
  = if decide (m ∈ targets) then getDisposeStack live m else [].
Proof.
  induction targets as [|t r IH]; intros live m; simpl.
  - destruct (decide (m ∈ [])) as [H |]; [|done]. by apply elem_of_nil in H.
  - pose proof (drain_stack_disposed t m (getDisposeStack live t)) as Hd.
    destruct (drain_stack t (getDisposeStack live t)) as [e1 f1].
    specialize (IH (clear t live) m).
    destruct (sweep r (clear t live)) as [[live' e2] f2]. simpl in *.
    rewrite disposed_of_app, Hd, IH, getDisposeStack_clear.
    destruct (decide (t = m)) as [-> | Hne].
    + destruct (decide (m ∈ m :: r)) as [| Ho]; [| destruct Ho; by left].
      destruct (decide (m ∈ r)); by rewrite app_nil_r.
    + destruct (decide (m ∈ r)) as [Hr | Hr];
        destruct (decide (m ∈ t :: r)) as [Ho | Ho]; simpl; try done.
      * destruct Ho. by right.
      * apply elem_of_cons in Ho as [-> | ?]; done.
Qed.

Lemma sweep_events_dispose (targets : list string) : forall live,
  Forall (fun e => is_dispose e = true) (snd (fst (sweep targets live))).
Proof.
  induction targets as [|t r IH]; intros live; simpl; [constructor |].
  pose proof (drain_stack_events t (getDisposeStack live t)) as Hd.
  destruct (drain_stack t (getDisposeStack live t)) as [e1 f1].
  specialize (IH (clear t live)).
  destruct (sweep r (clear t live)) as [[live' e2] f2]. simpl in *.
  apply Forall_app. split; [|done]. subst e1.
  apply Forall_forall. intros e He. apply list_elem_of_In, in_map_iff in He.
  by destruct He as (cb & <- & _).
Qed.

(** The sweep collects the failure of every throwing callback of every
    targeted module. *)
Lemma sweep_failures (targets : list string) : forall live m cb e,
  m ∈ targets -> In cb (getDisposeStack live m) -> cb_error cb = Some e ->
  In (m, cb_id cb, e) (snd (sweep targets live)).
Proof.
  induction targets as [|t r IH]; intros live m cb e Hm Hcb He; simpl.
  { by apply elem_of_nil in Hm. }
  pose proof (drain_stack_failures t (getDisposeStack live t) cb e) as Hd.
  destruct (drain_stack t (getDisposeStack live t)) as [e1 f1].
  specialize (IH (clear t live) m cb e).
  destruct (sweep r (clear t live)) as [[live' e2] f2]. simpl in *.
  apply in_app_iff.
  destruct (decide (t = m)) as [-> | Hne]; [left; auto |].
  right. apply IH; [by apply elem_of_cons in Hm as [-> | ?] | | done].
  rewrite getDisposeStack_clear. by destruct (decide (t = m)).
Qed.

End Teardown.

Section Loader.

Implicit Types (live : gmap string ModuleRecord) (m t : string).

(** What holds of the events of every step holds of the events of a
    sequence of steps. *)
Lemma exec_seq_events (P : Event -> Prop)
      (step : string -> gmap string ModuleRecord -> gmap string ModuleRecord * list Event) :
  (forall m live, Forall P (snd (step m live))) ->
  forall ms live, Forall P (snd (exec_seq step ms live)).
Proof.
  intros Hstep ms. induction ms as [|m r IH]; intros live; simpl; [constructor |].
  specialize (Hstep m live). destruct (step m live) as [l1 e1].
  specialize (IH l1). destruct (exec_seq step r l1) as [l2 e2]. simpl in *.
  apply Forall_app. by split.
Qed.

(** Executing modules runs no dispose callback. *)
Lemma exec_module_events b fuel : forall m live,
  Forall (fun e => is_dispose e = false) (snd (exec_module b fuel m live)).
Proof.
  induction fuel as [|f IH]; intros m live; simpl; [constructor |].
  destruct (live !! m); [constructor |].
  destruct (code b !! m) as [c|]; [|constructor].
  pose proof (exec_seq_events _ _ IH (imports (graph b) m)
                              (<[m := fresh_record]> live)) as Hseq.
  destruct (exec_seq (exec_module b f) _ _) as [live' evs]. simpl in *.
  apply Forall_app. split; [done |]. by repeat constructor.
Qed.

Lemma dom_foldl_registerDispose m (cbs : list Callback) : forall live,
  dom (foldl (fun acc cb => registerDispose m cb acc) live cbs) ∪ {[m]}
  = dom live ∪ {[m]}.
Proof.
  induction cbs as [|cb r IH]; intros live; simpl; [done |].
  rewrite IH. unfold registerDispose. rewrite dom_insert_L.
  apply set_eq. intros x. rewrite !elem_of_union. tauto.
Qed.

Lemma dom_run_body m c live : dom (run_body m c live) = {[m]} ∪ dom live.
Proof.
  unfold run_body, registerMarker. rewrite dom_insert_L.
  rewrite (union_comm_L {[m]}), dom_foldl_registerDispose.
  by rewrite (union_comm_L {[m]}).
Qed.

(** Steps that only add modules to the live set, and start the code of
    each module they add, make sequences that do the same. *)
Lemma exec_seq_adds_executed
      (step : string -> gmap string ModuleRecord -> gmap string ModuleRecord * list Event) :
  (forall m live,
      dom live ⊆ dom (fst (step m live))
      /\ forall x, x ∈ dom (fst (step m live)) ->
                   x ∈ dom live \/ In (EvExec x) (snd (step m live))) ->
  forall ms live,
    dom live ⊆ dom (fst (exec_seq step ms live))
    /\ forall x, x ∈ dom (fst (exec_seq step ms live)) ->
                 x ∈ dom live \/ In (EvExec x) (snd (exec_seq step ms live)).
Proof.
  intros Hstep ms. induction ms as [|m r IH]; intros live; simpl.
  - split; [done | auto].
  - destruct (Hstep m live) as [Hsub Hnew]. destruct (step m live) as [l1 e1].
    destruct (IH l1) as [Hsub2 Hnew2]. destruct (exec_seq step r l1) as [l2 e2].
    simpl in *. split; [by etrans |].
    intros x Hx. destruct (Hnew2 x Hx) as [H1 | H2].
    + destruct (Hnew x H1); [by left | right]. apply in_app_iff. by left.
    + right. apply in_app_iff. by right.
Qed.

(** Executing a module only adds modules to the live set, and starts the
    code of each module it adds. *)
Lemma exec_module_adds_executed b fuel : forall m live,
  dom live ⊆ dom (fst (exec_module b fuel m live))
  /\ forall x, x ∈ dom (fst (exec_module b fuel m live)) ->
               x ∈ dom live \/ In (EvExec x) (snd (exec_module b fuel m live)).
Proof.
  induction fuel as [|f IH]; intros m live; simpl; [split; auto |].
  destruct (live !! m) eqn:Hm; [split; auto |].
  destruct (code b !! m) as [c|]; [|split; auto].
  destruct (exec_seq_adds_executed _ IH (imports (graph b) m)
                                   (<[m := fresh_record]> live)) as [Hsub Hnew].
  destruct (exec_seq (exec_module b f) _ _) as [live' evs]. simpl in *.
  rewrite dom_run_body. rewrite dom_insert_L in Hsub. split.
  { intros x Hx. apply elem_of_union. right. apply Hsub, elem_of_union. by right. }
  intros x Hx. apply elem_of_union in Hx as [Hx | Hx].
  - apply elem_of_singleton in Hx as ->. right. apply in_app_iff. right. by left.
  - destruct (Hnew x Hx) as [H1 | H2].
    + rewrite dom_insert_L in H1. apply elem_of_union in H1 as [H1 | H1]; [|by left].
      apply elem_of_singleton in H1 as ->. right. apply in_app_iff. right. by left.
    + right. apply in_app_iff. by left.
Qed.

(** With fuel left, a module that has code is live after its execution. *)
Lemma exec_module_live b f m live :
  is_Some (code b !! m) -> m ∈ dom (fst (exec_module b (S f) m live)).
Proof.
  intros [c Hc]. simpl. destruct (live !! m) eqn:Hm.
  - simpl. apply elem_of_dom. by rewrite Hm.
  - rewrite Hc. destruct (exec_seq (exec_module b f) _ _) as [live' evs]. simpl.
    rewrite dom_run_body. apply elem_of_union. left. by apply elem_of_singleton.
Qed.

(** Re-executing the replaced modules starts the code of each of them that
    is not live. *)
Lemma exec_all_starts b (ms : list string) : forall live m,
  m ∈ ms -> is_Some (code b !! m) -> m ∉ dom live ->
  In (EvExec m) (snd (exec_all b ms live)).
Proof.
  unfold exec_all, exec_fuel.
  induction ms as [|t r IH]; intros live m Hm Hc Hout; cbn [exec_seq].
  { by apply elem_of_nil in Hm. }
  destruct (exec_module_adds_executed b (S (size (code b))) t live) as [Hsub Hnew].
  pose proof (exec_module_live b (size (code b)) t live) as Hlive.
  destruct (exec_module b (S (size (code b))) t live) as [l1 e1].
  specialize (IH l1 m).
  destruct (exec_seq (exec_module b (S (size (code b)))) r l1) as [l2 e2].
  cbn [fst snd] in *. apply in_app_iff.
  destruct (decide (m ∈ dom l1)) as [Hin | Hnot].
  - left. by destruct (Hnew m Hin).
  - right. apply IH; [|done|done].
    apply elem_of_cons in Hm as [-> | Hr]; [|done].
    destruct Hnot. by apply Hlive.
Qed.

Lemma foldr_delete_lookup (targets : list string) live m :
  m ∈ targets -> foldr delete live targets !! m = None.
Proof.
  induction targets as [|t r IH]; intros Hm; simpl.
  { by apply elem_of_nil in Hm. }
  destruct (decide (t = m)) as [-> | Hne]; [by rewrite lookup_delete_eq |].
  rewrite lookup_delete_ne; [|done]. apply IH.
  by apply elem_of_cons in Hm as [-> | ?].
Qed.

End Loader.

Section Cycle.

Variable urlMatch : string -> string -> Completion bool.

Implicit Types (live : gmap string ModuleRecord) (m t : string)
         (env : Env) (st : Instance) (changed : gset string).

Lemma decide_reload_empty live g entry : decide_reload live g entry ∅ = NoOp.
Proof. unfold decide_reload. by destruct (decide (∅ = ∅)). Qed.



(** The filter keeps a changed module exactly when the ignore predicate
    rejects its own identifier. *)
Lemma elem_of_dependency_filter cfg g changed m :
  m ∈ dependency_filter cfg g changed <-> m ∈ changed /\ ignored cfg m = false.
Proof. unfold dependency_filter. rewrite elem_of_filter. tauto. Qed.

Lemma dependency_filter_all_ignored cfg g changed :
  (forall c, c ∈ changed -> ignored cfg c = true) ->
  dependency_filter cfg g changed = ∅.
Proof.
  intros Hall. apply set_eq. intros x.
  rewrite elem_of_dependency_filter, elem_of_empty. split; [|done].
  intros [Hx Hi]. rewrite (Hall x Hx) in Hi. discriminate Hi.
Qed.

(** A cycle decided NoOp reports the decision and does nothing else. *)
Lemma cycle_noop env changed st :
  decision_of env changed st = NoOp ->
  cycle urlMatch env changed st = (st, [EvReport NoOp]).
Proof. intros Hd. unfold cycle. by rewrite Hd. Qed.

(** The trace of any other cycle: the report, the teardown, the loader. *)
Lemma cycle_trace env changed st :
  decision_of env changed st <> NoOp ->
  snd (cycle urlMatch env changed st)
  = EvReport (decision_of env changed st)
      :: snd (teardown (decision_of env changed st) (inst_live st))
      ++ snd (loader urlMatch env (decision_of env changed st) (inst_entry st)
                     (fst (teardown (decision_of env changed st) (inst_live st)))).
Proof.
  intros Hd. unfold cycle.
  destruct (decision_of env changed st) as [| targets |] eqn:E; [done | |].
  - destruct (teardown (Partial targets) (inst_live st)) as [live1 e1].
    cbn [fst snd].
    by destruct (loader urlMatch env (Partial targets) (inst_entry st) live1).
  - destruct (teardown Full (inst_live st)) as [live1 e1]. cbn [fst snd].
    by destruct (loader urlMatch env Full (inst_entry st) live1).
Qed.

Lemma teardown_trace d live :
  snd (teardown d live)
  = snd (fst (sweep (target_list d live) live))
      ++ report_failures (snd (sweep (target_list d live) live)).
Proof.
  unfold teardown. by destruct (sweep (target_list d live) live) as [[live' evs] fails].
Qed.

(** The Teardown Coordinator starts no module code. *)
Lemma teardown_no_exec d live :
  Forall (fun e => is_exec e = false) (snd (teardown d live)).
Proof.
  rewrite teardown_trace. apply Forall_app. split.
  - eapply Forall_impl; [apply sweep_events_dispose |].
    intros e He. by destruct e.
  - unfold report_failures. destruct (snd (sweep _ live)); by repeat constructor.
Qed.

(** The Userscript Instance Loader runs no dispose callback. *)
Lemma loader_no_dispose env d entry live :
  Forall (fun e => is_dispose e = false)
         (snd (loader urlMatch env d entry live)).
Proof.
  unfold loader. destruct d as [| targets |]; [constructor | |].
  - pose proof (exec_seq_events _ _
                  (exec_module_events (env_bundle env) (exec_fuel (env_bundle env)))
                  targets live) as Hseq.
    unfold exec_all. by destruct (exec_seq _ targets live).
  - assert (Hlog : forall logs : list Effect,
               Forall (fun e => is_dispose e = false) (map EvLog logs)).
    { intros logs. apply Forall_forall. intros e He.
      apply list_elem_of_In, in_map_iff in He. by destruct He as (x & <- & _). }
    destruct (matchScript urlMatch (env_pageUrl env) (env_info env)) as [[|] logs];
      [|apply Hlog].
    pose proof (exec_module_events (env_bundle env) (exec_fuel (env_bundle env))
                                   entry live) as Hexec.
    destruct (exec_module _ _ entry live) as [live' evs]. simpl in *.
    apply Forall_app. split; [apply Hlog | done].
Qed.

(** In a list made of a part without executions followed by a part without
    disposals, every disposal comes before every execution. *)
Lemma disposals_precede_executions (pre post : list Event) i j e1 e2 :
  Forall (fun e => is_exec e = false) pre ->
  Forall (fun e => is_dispose e = false) post ->
  (pre ++ post) !! i = Some e1 -> is_exec e1 = true ->
  (pre ++ post) !! j = Some e2 -> is_dispose e2 = true ->
  j < i.
Proof.
  intros Hpre Hpost Hi He1 Hj He2.
  apply lookup_app_Some in Hi as [Hi | [Hlen Hi]].
  { rewrite Forall_lookup in Hpre. specialize (Hpre _ _ Hi). congruence. }
  apply lookup_app_Some in Hj as [Hj | [_ Hj]].
  - apply lookup_lt_Some in Hj. lia.
  - rewrite Forall_lookup in Hpost. specialize (Hpost _ _ Hj). congruence.
Qed.

(** C4. When the filter leaves no relevant module the decision is NoOp and
    the cycle ends there: the instance is unchanged and the trace holds the
    report of the decision only (no dispose callback run, no module
    executed). *)
Theorem C4_empty_relevant_set_is_noop env changed st :
  dependency_filter (env_ignore env) (graph (env_bundle env)) changed = ∅ ->
  decision_of env changed st = NoOp
  /\ cycle urlMatch env changed st = (st, [EvReport NoOp]).
Proof.
  intros Hempty.
  assert (Hd : decision_of env changed st = NoOp).
  { unfold decision_of. rewrite Hempty. apply decide_reload_empty. }
  split; [exact Hd | by apply cycle_noop].
Qed.




(** C8. The filter tests the ignore predicate on the identifier of each
    changed module and on nothing else: membership of the relevant set is
    decided by the module's own identifier, the graph plays no part, an
    ignored module is dropped even when a module that is not ignored
    imports it, and a change of ignored modules only is decided NoOp. *)
Theorem C8_ignore_tested_on_own_identifier env changed st (g' : Graph) m :
  (m ∈ dependency_filter (env_ignore env) (graph (env_bundle env)) changed
   <-> m ∈ changed /\ ignored (env_ignore env) m = false)
  /\ dependency_filter (env_ignore env) (graph (env_bundle env)) changed
     = dependency_filter (env_ignore env) g' changed
  /\ (forall importer,
         In (importer, m) (graph (env_bundle env)) ->
         ignored (env_ignore env) importer = false ->
         ignored (env_ignore env) m = true ->
         m ∉ dependency_filter (env_ignore env) (graph (env_bundle env)) changed)
  /\ ((forall c, c ∈ changed -> ignored (env_ignore env) c = true) ->
      decision_of env changed st = NoOp
      /\ cycle urlMatch env changed st = (st, [EvReport NoOp])).
Proof.
  split; [apply elem_of_dependency_filter |]. split; [reflexivity |]. split.
  - intros importer _ _ Hign Hin.
    apply elem_of_dependency_filter in Hin as [_ Hin]. congruence.
  - intros Hall.
    assert (Hd : decision_of env changed st = NoOp).
    { unfold decision_of. rewrite dependency_filter_all_ignored; [|done].
      apply decide_reload_empty. }
    split; [exact Hd | by apply cycle_noop].
Qed.

End Cycle.

Section DisposeOrder.

Variable urlMatch : string -> string -> Completion bool.

Implicit Types (live : gmap string ModuleRecord) (m t : string)
         (env : Env) (st : Instance) (changed : gset string).

Lemma disposed_of_none m (trace : list Event) :
  Forall (fun e => is_dispose e = false) trace -> disposed_of m trace = [].
Proof.
  induction 1 as [|e r He _ IH]; [done |].
  unfold disposed_of in *. simpl. rewrite IH. by destruct e.
Qed.

Lemma disposed_of_report_failures m fails :
  disposed_of m (report_failures fails) = [].
Proof. by destruct fails. Qed.

Lemma reported_failures_app (t1 t2 : list Event) :
  reported_failures (t1 ++ t2) = reported_failures t1 ++ reported_failures t2.
Proof. unfold reported_failures. by rewrite flat_map_app. Qed.

Lemma reported_failures_report fails :
  reported_failures (report_failures fails) = fails.
Proof. destruct fails; [done |]. simpl. by rewrite app_nil_r. Qed.

Lemma targeted_not_noop d live m : targeted d live m -> d <> NoOp.
Proof. intros Hm ->. unfold targeted in Hm. simpl in Hm. by apply elem_of_nil in Hm. Qed.

(** The callbacks a cycle runs for a targeted module are the stack the
    module had when the cycle began. *)
Lemma cycle_disposed env changed st m :
  targeted (decision_of env changed st) (inst_live st) m ->
  disposed_of m (snd (cycle urlMatch env changed st))
  = getDisposeStack (inst_live st) m.
Proof.
  intros Hm. rewrite cycle_trace; [|by eapply targeted_not_noop].
  change (EvReport ?d :: ?t) with ([EvReport d] ++ t).
  rewrite !disposed_of_app, teardown_trace, disposed_of_app.
  rewrite sweep_disposed, disposed_of_report_failures.
  rewrite (disposed_of_none m (snd (loader _ _ _ _ _)));
    [|apply loader_no_dispose].
  destruct (decide (m ∈ target_list _ _)) as [|Hout]; [|by destruct Hout].
  simpl. by rewrite !app_nil_r.
Qed.

(** Within a cycle every dispose callback is run before any module code
    is started. *)
Lemma cycle_order env changed st i j e1 e2 :
  snd (cycle urlMatch env changed st) !! i = Some e1 -> is_exec e1 = true ->
  snd (cycle urlMatch env changed st) !! j = Some e2 -> is_dispose e2 = true ->
  j < i.
Proof.
  assert (Hcase : decision_of env changed st = NoOp
                  \/ decision_of env changed st <> NoOp).
  { destruct (decision_of env changed st); [by left | by right | by right]. }
  destruct Hcase as [Hd | Hd].
  - rewrite (cycle_noop urlMatch env changed st Hd). simpl.
    intros Hi He1. destruct i as [|i]; simpl in Hi; [|done].
    inversion Hi; subst. discriminate He1.
  - rewrite (cycle_trace urlMatch env changed st Hd).
    rewrite app_comm_cons.
    apply disposals_precede_executions.
    + constructor; [done | apply teardown_no_exec].
    + apply loader_no_dispose.
Qed.

(** C5. For a module torn down under a Partial or a Full decision, the
    cycle runs the dispose callbacks registered for it once each, the last
    registered first (what it runs for the module is the module's stack,
    and callbacks registered one after the other are in the stack in the
    reverse order), and every dispose callback of the cycle is run before
    the code of any module is started. *)
Theorem C5_disposed_once_last_first_before_replacement
        env changed st m (cbs : list Callback) :
  targeted (decision_of env changed st) (inst_live st) m ->
  disposed_of m (snd (cycle urlMatch env changed st))
  = getDisposeStack (inst_live st) m
  /\ getDisposeStack
       (foldl (fun acc cb => registerDispose m cb acc) (inst_live st) cbs) m
     = rev cbs ++ getDisposeStack (inst_live st) m
  /\ (forall i j e1 e2,
         snd (cycle urlMatch env changed st) !! i = Some e1 -> is_exec e1 = true ->
         snd (cycle urlMatch env changed st) !! j = Some e2 -> is_dispose e2 = true ->
         j < i).
Proof.
  intros Hm. split; [by apply cycle_disposed |]. split.
  - apply getDisposeStack_registrations.
  - intros i j e1 e2. apply cycle_order.
Qed.

(** After a teardown the loader starts the code of every replaced module
    (Partial), or of the entry when the page still matches (Full). *)
Lemma loader_starts_partial env targets entry live x :
  x ∈ targets -> is_Some (code (env_bundle env) !! x) ->
  In (EvExec x)
     (snd (loader urlMatch env (Partial targets) entry
                  (fst (teardown (Partial targets) live)))).
Proof.
  intros Hx Hc. unfold loader, teardown. cbn [target_list].
  destruct (sweep targets live) as [[live' evs] fails]. cbn [fst].
  pose proof (exec_all_starts (env_bundle env) targets
                (foldr delete live' targets) x Hx Hc) as Hstart.
  destruct (exec_all (env_bundle env) targets (foldr delete live' targets))
    as [live2 e2]. cbn [snd] in *.
  apply Hstart. apply not_elem_of_dom. by apply foldr_delete_lookup.
Qed.

Lemma loader_starts_full env entry live :
  fst (matchScript urlMatch (env_pageUrl env) (env_info env)) = true ->
  is_Some (code (env_bundle env) !! entry) ->
  In (EvExec entry)
     (snd (loader urlMatch env Full entry (fst (teardown Full live)))).
Proof.
  intros Hmatch [c Hc]. unfold loader, teardown.
  destruct (sweep (target_list Full live) live) as [[live' evs] fails]. cbn [fst].
  destruct (matchScript urlMatch (env_pageUrl env) (env_info env)) as [still logs].
  simpl in Hmatch. subst still.
  unfold exec_fuel. cbn [exec_module]. rewrite lookup_empty, Hc.
  destruct (exec_seq _ _ _) as [live2 e2]. cbn [snd].
  apply in_app_iff. right. apply in_app_iff. right. by left.
Qed.

(** C7. A dispose callback that throws during the teardown stops nothing:
    every targeted module, the thrower's own and its siblings, still has
    its whole stack run; the failure is collected and reported; and the
    loader still starts the code of the replaced modules (Partial) or of
    the entry on a page that still matches (Full). *)
Theorem C7_throwing_disposer_is_isolated env changed st a cb e :
  targeted (decision_of env changed st) (inst_live st) a ->
  In cb (getDisposeStack (inst_live st) a) ->
  cb_error cb = Some e ->
  (forall b, targeted (decision_of env changed st) (inst_live st) b ->
             disposed_of b (snd (cycle urlMatch env changed st))
             = getDisposeStack (inst_live st) b)
  /\ In (a, cb_id cb, e) (reported_failures (snd (cycle urlMatch env changed st)))
  /\ match decision_of env changed st with
     | NoOp => True
     | Partial targets =>
         forall x, x ∈ targets -> is_Some (code (env_bundle env) !! x) ->
                   In (EvExec x) (snd (cycle urlMatch env changed st))
     | Full =>
         fst (matchScript urlMatch (env_pageUrl env) (env_info env)) = true ->
         is_Some (code (env_bundle env) !! inst_entry st) ->
         In (EvExec (inst_entry st)) (snd (cycle urlMatch env changed st))
     end.
Proof.
  intros Ha Hcb He.
  pose proof (targeted_not_noop _ _ _ Ha) as Hd.
  split; [intros b Hb; by apply cycle_disposed |]. split.
  - rewrite cycle_trace; [|done].
    change (EvReport ?d :: ?t) with ([EvReport d] ++ t).
    rewrite !reported_failures_app, teardown_trace, reported_failures_app.
    rewrite reported_failures_report.
    apply in_app_iff. right. apply in_app_iff. left. apply in_app_iff. right.
    by apply sweep_failures.
  - rewrite cycle_trace; [|done].
    destruct (decision_of env changed st) as [| targets |]; [done | |].
    + intros x Hx Hc. right. apply in_app_iff. right.
      by apply loader_starts_partial.
    + intros Hmatch Hc. right. apply in_app_iff. right.
      by apply loader_starts_full.
Qed.

End DisposeOrder.

(** ** The cycle on a concrete userscript *)

(** Scenario A: the entry registered whole-instance reload and a module
    without marker of its own changes. Every live module is disposed, the
    failure of the throwing callback is reported, and the entry is executed
    again after its imports. *)
Example scenario_A_full :
  snd (cycle sample_urlMatch sample_env {[ helper_id ]} whole_instance)
  = [EvReport Full;
     EvDispose entry_id (cb_ok 2); EvDispose entry_id (cb_bad 1);
     EvDispose helper_id (cb_ok 4); EvDispose helper_id (cb_ok 3);
     EvFailures [(entry_id, 1, "TypeError: element is null")];
     EvExec lib_id; EvExec helper_id; EvExec entry_id].
Proof. vm_compute. reflexivity. Qed.

(** Scenario B: a module that self-accepted changes; it alone is disposed
    and replaced, and the other modules keep their records. *)
Example scenario_B_partial :
  snd (cycle sample_urlMatch sample_env {[ helper_id ]} accepting_instance)
  = [EvReport (Partial [helper_id]);
     EvDispose helper_id (cb_ok 4); EvDispose helper_id (cb_bad 3);
     EvFailures [(helper_id, 3, "TypeError: element is null")];
     EvExec helper_id]
  /\ inst_live (fst (cycle sample_urlMatch sample_env {[ helper_id ]}
                           accepting_instance)) !! entry_id
     = inst_live accepting_instance !! entry_id
  /\ getDisposeStack
       (inst_live (fst (cycle sample_urlMatch sample_env {[ helper_id ]}
                              accepting_instance))) helper_id
     = [cb_ok 21; cb_ok 20].
Proof. repeat split; vm_compute; reflexivity. Qed.

(** Scenario C: the change touches a module of the ignore list only. *)
Example scenario_C_noop :
  cycle sample_urlMatch sample_env {[ lib_id ]} accepting_instance
  = (accepting_instance, [EvReport NoOp]).
Proof. vm_compute. reflexivity. Qed.

(** Scenario D: at a Full reload the page no longer matches the patterns
    of the instance; it is torn down and not executed again. *)
Example scenario_D_dropped :
  snd (cycle sample_urlMatch moved_env {[ helper_id ]} whole_instance)
  = [EvReport Full;
     EvDispose entry_id (cb_ok 2); EvDispose entry_id (cb_bad 1);
     EvDispose helper_id (cb_ok 4); EvDispose helper_id (cb_ok 3);
     EvFailures [(entry_id, 1, "TypeError: element is null")]]
  /\ inst_live (fst (cycle sample_urlMatch moved_env {[ helper_id ]}
                           whole_instance)) = ∅.
Proof. split; vm_compute; reflexivity. Qed.

(** A change to the entry of an instance where nothing accepts it falls
    back to Full. *)
Example unaccepted_change_is_full :
  decision_of sample_env {[ entry_id ]} accepting_instance = Full.
Proof. vm_compute. reflexivity. Qed.

Lemma C4_empty_relevant_set_is_noop_witness :
  dependency_filter (env_ignore sample_env) (graph (env_bundle sample_env))
                    {[ lib_id ]} = ∅
  /\ cycle sample_urlMatch sample_env {[ lib_id ]} whole_instance
     = (whole_instance, [EvReport NoOp]).
Proof.
  assert (Hempty : dependency_filter (env_ignore sample_env)
                     (graph (env_bundle sample_env)) {[ lib_id ]} = ∅).
  { vm_compute. reflexivity. }
  split; [exact Hempty |].
  exact (proj2 (C4_empty_relevant_set_is_noop
                  sample_urlMatch sample_env {[ lib_id ]} whole_instance Hempty)).
Defined.

Lemma C5_disposed_once_last_first_before_replacement_witness :
  targeted (decision_of sample_env {[ helper_id ]} accepting_instance)
           (inst_live accepting_instance) helper_id
  /\ disposed_of helper_id
       (snd (cycle sample_urlMatch sample_env {[ helper_id ]} accepting_instance))
     = [cb_ok 4; cb_bad 3]
  /\ getDisposeStack
       (foldl (fun acc cb => registerDispose helper_id cb acc)
              (inst_live accepting_instance) [cb_ok 5; cb_ok 6]) helper_id
     = [cb_ok 6; cb_ok 5; cb_ok 4; cb_bad 3].
Proof.
  assert (Ht : targeted (decision_of sample_env {[ helper_id ]} accepting_instance)
                        (inst_live accepting_instance) helper_id).
  { unfold targeted. apply list_elem_of_In. vm_compute. by left. }
  destruct (C5_disposed_once_last_first_before_replacement
              sample_urlMatch sample_env {[ helper_id ]} accepting_instance
              helper_id [cb_ok 5; cb_ok 6] Ht) as (Hrun & Hreg & _).
  split; [exact Ht |]. split.
  - rewrite Hrun. vm_compute. reflexivity.
  - rewrite Hreg. vm_compute. reflexivity.
Defined.


Lemma C7_throwing_disposer_is_isolated_witness :
  targeted (decision_of sample_env {[ helper_id ]} whole_instance)
           (inst_live whole_instance) entry_id
  /\ In (cb_bad 1) (getDisposeStack (inst_live whole_instance) entry_id)
  /\ cb_error (cb_bad 1) = Some "TypeError: element is null"
  /\ disposed_of entry_id
       (snd (cycle sample_urlMatch sample_env {[ helper_id ]} whole_instance))
     = [cb_ok 2; cb_bad 1]
  /\ disposed_of helper_id
       (snd (cycle sample_urlMatch sample_env {[ helper_id ]} whole_instance))
     = [cb_ok 4; cb_ok 3]
  /\ In (entry_id, 1, "TypeError: element is null")
        (reported_failures
           (snd (cycle sample_urlMatch sample_env {[ helper_id ]} whole_instance)))
  /\ In (EvExec entry_id)
        (snd (cycle sample_urlMatch sample_env {[ helper_id ]} whole_instance)).
Proof.
  assert (Hdec : decision_of sample_env {[ helper_id ]} whole_instance = Full).
  { vm_compute. reflexivity. }
  assert (Ha : targeted (decision_of sample_env {[ helper_id ]} whole_instance)
                        (inst_live whole_instance) entry_id).
  { unfold targeted. apply list_elem_of_In. vm_compute. auto. }
  assert (Hb : targeted (decision_of sample_env {[ helper_id ]} whole_instance)
                        (inst_live whole_instance) helper_id).
  { unfold targeted. apply list_elem_of_In. vm_compute. auto. }
  assert (Hcb : In (cb_bad 1) (getDisposeStack (inst_live whole_instance) entry_id)).
  { vm_compute. auto. }
  destruct (C7_throwing_disposer_is_isolated
              sample_urlMatch sample_env {[ helper_id ]} whole_instance
              entry_id (cb_bad 1) "TypeError: element is null" Ha Hcb eq_refl)
    as (Hall & Hfail & Hstart).
  rewrite Hdec in Hstart.
  split; [exact Ha |]. split; [exact Hcb |]. split; [reflexivity |].
  split; [rewrite (Hall entry_id Ha); vm_compute; reflexivity |].
  split; [rewrite (Hall helper_id Hb); vm_compute; reflexivity |].
  split; [exact Hfail |].
  apply Hstart; [reflexivity |]. vm_compute. eauto.
Defined.

Lemma C8_ignore_tested_on_own_identifier_witness :
  In (entry_id, lib_id) (graph (env_bundle sample_env))
  /\ ignored (env_ignore sample_env) entry_id = false
  /\ ignored (env_ignore sample_env) lib_id = true
  /\ (lib_id ∉ dependency_filter (env_ignore sample_env)
                                 (graph (env_bundle sample_env)) {[ lib_id ]})
  /\ cycle sample_urlMatch sample_env {[ lib_id ]} whole_instance
     = (whole_instance, [EvReport NoOp]).
Proof.
  destruct (C8_ignore_tested_on_own_identifier
              sample_urlMatch sample_env {[ lib_id ]} whole_instance [] lib_id)
    as (_ & _ & Hdrop & Hnoop).
  assert (Hedge : In (entry_id, lib_id) (graph (env_bundle sample_env)))
    by (simpl; auto).
  split; [exact Hedge |]. split; [reflexivity |]. split; [reflexivity |].
  split; [exact (Hdrop entry_id Hedge eq_refl eq_refl) |].
  apply Hnoop. intros c Hc. apply elem_of_singleton in Hc as ->. reflexivity.
Defined.

(** * Further properties of the client module *)

Import ClientTop MoreSamples.

Section MatchOutcomes.

Variable urlMatch : string -> string -> Completion bool.

Lemma some_throw_iff (f : string -> Completion bool) (l : list string) e :
  some f l = Throw e <-> scan_throws f l e.
Proof.
  split.
  - induction l as [|x r IH]; simpl; [done |].
    unfold mbind, Completion_bind. destruct (f x) as [[|]|e'] eqn:E.
    + done.
    + intros H. destruct (IH H) as (before & p & after & -> & Hb & Hp).
      exists (x :: before), p, after. repeat split; [|done].
      intros q [<- | Hq]; auto.
    + intros [= ->]. exists [], x, r. repeat split; [|done]. by intros q [].
  - intros (before & p & after & -> & Hb & Hp). by apply some_throw.
Qed.

Lemma some_hits_iff (f : string -> Completion bool) (l : list string) :
  some f l = Normal true <-> scan_hits f l.
Proof. apply some_true_iff. Qed.

(** The three ways [matchScript] ends, by the outcome of its two scans. *)
Lemma matchScript_cases pageUrl s :
  matchScript urlMatch pageUrl s
  = match some (fun p => urlMatch p pageUrl) (include_patterns (meta s)) with
    | Normal true =>
        match some (fun p => urlMatch p pageUrl) (exclude_patterns (meta s)) with
        | Normal out => (negb out, [])
        | Throw e => (false, [match_error_log s e])
        end
    | Normal false => (false, [])
    | Throw e => (false, [match_error_log s e])
    end.
Proof.
  unfold matchScript, matchScript_try, include_patterns, exclude_patterns.
  unfold mbind, Completion_bind.
  destruct (some (fun p => urlMatch p pageUrl)
                 (flat (compact [include (meta s); match_ (meta s)])))
    as [[|]|e1]; [|done|done].
  by destruct (some (fun p => urlMatch p pageUrl)
                    (flat (compact [exclude (meta s)]))) as [out|e2].
Qed.

(** X1. [matchScript] logs an exception [e] for a userscript, and answers
    [false], exactly when the scan of its include-then-match patterns is
    left by [e], or that scan stops on a match and the scan of its exclude
    patterns is left by [e]. *)
Theorem X1_match_error_logged_iff_scan_throws pageUrl s e :
  matchScript urlMatch pageUrl s = (false, [match_error_log s e])
  <-> scan_throws (fun p => urlMatch p pageUrl) (include_patterns (meta s)) e
      \/ (scan_hits (fun p => urlMatch p pageUrl) (include_patterns (meta s))
          /\ scan_throws (fun p => urlMatch p pageUrl) (exclude_patterns (meta s)) e).
Proof.
  rewrite <- !some_throw_iff, <- some_hits_iff, matchScript_cases.
  unfold match_error_log.
  destruct (some (fun p => urlMatch p pageUrl) (include_patterns (meta s)))
    as [[|]|e1].
  - destruct (some (fun p => urlMatch p pageUrl) (exclude_patterns (meta s)))
      as [out|e2].
    + split; [done |]. intros [? | [_ ?]]; done.
    + split.
      * intros [= ->]. right. by split.
      * intros [? | [_ [= ->]]]; done.
  - split; [done |]. intros [? | [? _]]; done.
  - split.
    + intros [= ->]. by left.
    + intros [[= ->] | [? _]]; done.
Qed.

(** X2. When no include or match pattern matches the page, [matchScript]
    answers [false] and logs nothing, and the exclude patterns are not
    evaluated: whatever [urlMatch] does on them plays no part. *)
Theorem X2_exclude_not_evaluated_without_include_hit pageUrl s :
  (forall q, In q (include_patterns (meta s)) -> urlMatch q pageUrl = Normal false) ->
  matchScript urlMatch pageUrl s = (false, []).
Proof.
  intros Hnone. rewrite matchScript_cases.
  by rewrite (proj2 (some_false_iff (fun p => urlMatch p pageUrl)
                                    (include_patterns (meta s))) Hnone).
Qed.

(** The answer of a pattern, an exception counting as no match. *)
Lemma some_total (f : string -> Completion bool) (l : list string) :
  (forall q, In q l -> exists b, f q = Normal b) ->
  some f l
  = Normal (existsb (fun q => match f q with Normal true => true | _ => false end) l).
Proof.
  induction l as [|x r IH]; intros Htotal; simpl; [done |].
  unfold mbind, Completion_bind.
  destruct (Htotal x (or_introl eq_refl)) as [[|] Hx]; rewrite Hx; [done |].
  simpl. apply IH. intros q Hq. apply Htotal. by right.
Qed.

Lemma existsb_Permutation {A} (g : A -> bool) (l1 l2 : list A) :
  Permutation l1 l2 -> existsb g l1 = existsb g l2.
Proof.
  intros Hp. apply eq_true_iff_eq. rewrite !existsb_exists.
  split; intros (x & Hx & Hg); exists x; split; try done.
  - by apply (Permutation_in _ Hp).
  - by apply (Permutation_in _ (Permutation_sym Hp)).
Qed.

(** X3. When [urlMatch] throws on none of the patterns, the answer of
    [matchScript] depends on which patterns are declared and not on where:
    two userscripts whose include-then-match lists are permutations of
    each other, and whose exclude lists are, get the same answer, and
    nothing is logged for either. *)
Theorem X3_order_of_patterns_irrelevant_without_exceptions pageUrl s1 s2 :
  Permutation (include_patterns (meta s1)) (include_patterns (meta s2)) ->
  Permutation (exclude_patterns (meta s1)) (exclude_patterns (meta s2)) ->
  (forall q, In q (include_patterns (meta s1) ++ exclude_patterns (meta s1)) ->
             exists b, urlMatch q pageUrl = Normal b) ->
  fst (matchScript urlMatch pageUrl s1) = fst (matchScript urlMatch pageUrl s2)
  /\ snd (matchScript urlMatch pageUrl s1) = []
  /\ snd (matchScript urlMatch pageUrl s2) = [].
Proof.
  intros Hinc Hexc Htotal.
  assert (Hi1 : forall q, In q (include_patterns (meta s1)) ->
                          exists b, urlMatch q pageUrl = Normal b).
  { intros q Hq. apply Htotal, in_app_iff. by left. }
  assert (He1 : forall q, In q (exclude_patterns (meta s1)) ->
                          exists b, urlMatch q pageUrl = Normal b).
  { intros q Hq. apply Htotal, in_app_iff. by right. }
  assert (Hi2 : forall q, In q (include_patterns (meta s2)) ->
                          exists b, urlMatch q pageUrl = Normal b).
  { intros q Hq. apply Hi1. by apply (Permutation_in _ (Permutation_sym Hinc)). }
  assert (He2 : forall q, In q (exclude_patterns (meta s2)) ->
                          exists b, urlMatch q pageUrl = Normal b).
  { intros q Hq. apply He1. by apply (Permutation_in _ (Permutation_sym Hexc)). }
  rewrite !matchScript_cases.
  rewrite (some_total _ _ Hi1), (some_total _ _ Hi2).
  rewrite (some_total _ _ He1), (some_total _ _ He2).
  rewrite (existsb_Permutation _ _ _ Hinc), (existsb_Permutation _ _ _ Hexc).
  by destruct (existsb _ (include_patterns (meta s2))).
Qed.

End MatchOutcomes.

Section LoadOrder.

Variable urlMatch : string -> string -> Completion bool.

(** What [filter] keeps is every element that passed the test. *)
Lemma filter_matchScript_keeps pageUrl (l : list UserscriptInfo) x :
  In x l -> fst (matchScript urlMatch pageUrl x) = true ->
  In x (fst (filter_matchScript urlMatch pageUrl l)).
Proof.
  induction l as [|s r IH]; [done |].
  rewrite filter_matchScript_cons; simpl. rewrite in_app_iff.
  intros [-> | Hr] Hx.
  - left. rewrite Hx. by left.
  - right. by apply IH.
Qed.

Lemma loadScript_names script loaded n :
  In n (map name (fst (loadScript script loaded)))
  <-> In n (map name loaded) \/ n = name script.
Proof.
  unfold loadScript. destruct (find _ loaded) as [x|] eqn:E; simpl.
  - split; [by left |]. intros [? | ->]; [done |].
    apply find_some in E as [Hx Hn]. apply String.eqb_eq in Hn.
    rewrite <- Hn. by apply in_map.
  - rewrite map_app, in_app_iff. simpl. split.
    + intros [? | [<- | []]]; auto.
    + intros [? | ->]; auto.
Qed.

Lemma forEach_loadScript_names matched : forall loaded n,
  In n (map name (fst (forEach_loadScript matched loaded)))
  <-> In n (map name loaded) \/ In n (map name matched).
Proof.
  induction matched as [|s r IH]; intros loaded n; simpl.
  - split; [by left | by intros [? | []]].
  - pose proof (loadScript_names s loaded n) as Hs.
    destruct (loadScript s loaded) as [l1 e1]. simpl in Hs.
    specialize (IH l1 n). destruct (forEach_loadScript r l1) as [l2 e2].
    simpl in *. rewrite IH, Hs. split.
    + intros [[? | ->] | ?]; auto.
    + intros [? | [<- | ?]]; auto.
Qed.

(** X4. After an evaluation of the client module a name is in the loaded
    set exactly when it was there before or it is the name of a userscript
    of the list that matches the page: no matching userscript is left
    out. *)
Theorem X4_loaded_names_are_old_or_matching userscripts pageUrl hot n :
  In n (map name (fst (load_phase urlMatch userscripts pageUrl hot)))
  <-> In n (map name (initial_loadedScripts hot))
      \/ exists s, In s userscripts /\ name s = n
                   /\ fst (matchScript urlMatch pageUrl s) = true.
Proof.
  unfold load_phase. rewrite forEach_loadScript_names. split.
  - intros [? | Hm]; [by left | right].
    apply in_map_iff in Hm as (s & Hn & Hs).
    apply filter_matchScript_kept in Hs as [Hin Hm]. eauto.
  - intros [? | (s & Hin & Hn & Hm)]; [by left | right].
    apply in_map_iff. exists s. split; [done |].
    by apply filter_matchScript_keeps.
Qed.

(** The userscripts [forEach(loadScript)] adds: in the order of the list,
    each the first of the list with its name, none with a name already
    loaded; and the calls made are those of the added userscripts, one
    block each. *)
Lemma forEach_loadScript_added matched : forall loaded,
  exists new,
    forEach_loadScript matched loaded = (loaded ++ new, flat_map load_effects new)
    /\ sublist new matched
    /\ forall s, In s new ->
         ~ In (name s) (map name loaded)
         /\ exists before after,
              matched = before ++ s :: after
              /\ ~ In (name s) (map name before).
Proof.
  induction matched as [|s r IH]; intros loaded; simpl.
  - exists []. rewrite app_nil_r. split; [done |]. split; [apply sublist_nil |].
    by intros s [].
  - unfold loadScript.
    destruct (find (fun x => String.eqb (name x) (name s)) loaded) as [x|] eqn:E.
    + destruct (IH loaded) as (new & Hrun & Hsub & Hfirst). rewrite Hrun.
      exists new. split; [done |]. split; [by constructor |].
      intros y Hy. destruct (Hfirst y Hy) as (Hout & before & after & -> & Hb).
      split; [done |]. exists (s :: before), after. split; [done |].
      simpl. intros [Heq | Hin]; [|done].
      apply Hout. rewrite <- Heq.
      apply find_some in E as [Hx Hn]. apply String.eqb_eq in Hn.
      rewrite <- Hn. by apply in_map.
    + apply find_name_unknown in E.
      destruct (IH (loaded ++ [s])) as (new & Hrun & Hsub & Hfirst). rewrite Hrun.
      exists (s :: new). split.
      { rewrite <- (app_assoc loaded). reflexivity. }
      split; [by constructor |].
      intros y [<- | Hy].
      * split; [exact E |]. exists [], r. split; [reflexivity | by intros []].
      * destruct (Hfirst y Hy) as (Hout & before & after & -> & Hb).
        rewrite map_app, in_app_iff in Hout. simpl in Hout.
        split; [tauto |]. exists (s :: before), after. split; [done |].
        simpl. intros [Heq | Hin]; [|done]. apply Hout. right. by left.
Qed.

(** X5. The userscripts an evaluation adds to the loaded set are appended
    in the order of the userscript list, and of several matching
    userscripts with one name the first of the list is the one loaded:
    each added userscript matches the page, has a name that was not
    loaded, and no userscript before it among the matching ones has its
    name. *)
Theorem X5_first_matching_userscript_of_a_name_is_loaded userscripts pageUrl hot :
  exists new,
    fst (load_phase urlMatch userscripts pageUrl hot)
    = initial_loadedScripts hot ++ new
    /\ sublist new userscripts
    /\ forall s, In s new ->
         fst (matchScript urlMatch pageUrl s) = true
         /\ ~ In (name s) (map name (initial_loadedScripts hot))
         /\ exists before after,
              fst (filter_matchScript urlMatch pageUrl userscripts)
              = before ++ s :: after
              /\ ~ In (name s) (map name before).
Proof.
  unfold load_phase.
  destruct (forEach_loadScript_added
              (fst (filter_matchScript urlMatch pageUrl userscripts))
              (initial_loadedScripts hot)) as (new & Hrun & Hsub & Hfirst).
  exists new. rewrite Hrun. split; [done |]. split.
  - etrans; [exact Hsub |]. clear.
    induction userscripts as [|s r IH]; [constructor |].
    rewrite filter_matchScript_cons; simpl.
    destruct (fst (matchScript urlMatch pageUrl s)); simpl; by constructor.
  - intros s Hs. destruct (Hfirst s Hs) as (Hout & before & after & Heq & Hb).
    split; [| split; [done | eauto]].
    assert (Hin : In s (fst (filter_matchScript urlMatch pageUrl userscripts))).
    { rewrite Heq. apply in_app_iff. right. by left. }
    by apply filter_matchScript_kept in Hin as [_ ?].
Qed.

(** X6. The calls of the load phase of an evaluation are those of the
    userscripts it adds to the loaded set, one block for each in the order
    they are added: the line ["Loading script:"], one call of
    [__MK_GLOBAL__.loadScript] with the url, and [loadCss] for each
    stylesheet; nothing is called for any other userscript. *)
Theorem X6_load_phase_calls_are_those_of_added_userscripts
        userscripts pageUrl hot :
  exists new,
    load_phase urlMatch userscripts pageUrl hot
    = (initial_loadedScripts hot ++ new, flat_map load_effects new).
Proof.
  unfold load_phase.
  destruct (forEach_loadScript_added
              (fst (filter_matchScript urlMatch pageUrl userscripts))
              (initial_loadedScripts hot)) as (new & Hrun & _).
  eauto.
Qed.

End LoadOrder.

Section Reevaluation.

Variable urlMatch : string -> string -> Completion bool.

Lemma forEach_loadScript_all_known matched : forall loaded,
  (forall s, In s matched -> In (name s) (map name loaded)) ->
  forEach_loadScript matched loaded = (loaded, []).
Proof.
  induction matched as [|s r IH]; intros loaded Hknown; simpl; [done |].
  rewrite loadScript_known; [|apply Hknown; by left].
  rewrite IH; [done |]. intros x Hx. apply Hknown. by right.
Qed.

Lemma client_module_eq userscripts pageUrl hot :
  client_module urlMatch userscripts pageUrl hot
  = (fst (load_phase urlMatch userscripts pageUrl hot),
     snd (filter_matchScript urlMatch pageUrl userscripts)
       ++ snd (load_phase urlMatch userscripts pageUrl hot)).
Proof.
  unfold client_module. by destruct (load_phase urlMatch userscripts pageUrl hot).
Qed.

(** X7. When the client module is evaluated after a hot replacement and
    every userscript that matches the page has its name in the loaded set
    it starts from, the loaded set is left as it is and the only calls are
    the log lines of the match tests. This is the case whenever the
    userscript list and the page are those of the evaluation before:
    evaluating the client again loads nothing again. *)
Theorem X7_reevaluation_loads_nothing_again userscripts pageUrl hot
        userscripts' pageUrl' (loaded : list UserscriptInfo) :
  ((forall s, In s userscripts' ->
              fst (matchScript urlMatch pageUrl' s) = true ->
              In (name s) (map name loaded)) ->
   client_module urlMatch userscripts' pageUrl' (hot_after_dispose loaded)
   = (loaded, snd (filter_matchScript urlMatch pageUrl' userscripts')))
  /\ client_module urlMatch userscripts pageUrl
       (hot_after_dispose (fst (client_module urlMatch userscripts pageUrl hot)))
     = (fst (client_module urlMatch userscripts pageUrl hot),
        snd (filter_matchScript urlMatch pageUrl userscripts)).
Proof.
  assert (Hgen : forall us page l,
             (forall s, In s us -> fst (matchScript urlMatch page s) = true ->
                        In (name s) (map name l)) ->
             client_module urlMatch us page (hot_after_dispose l)
             = (l, snd (filter_matchScript urlMatch page us))).
  { intros us page l Hknown. rewrite client_module_eq. unfold load_phase.
    rewrite initial_after_dispose, forEach_loadScript_all_known.
    - by rewrite app_nil_r.
    - intros s Hs. apply filter_matchScript_kept in Hs as [Hin Hm]. auto. }
  split; [apply Hgen |].
  apply Hgen. intros s Hin Hm.
  rewrite client_module_fst. unfold load_phase.
  apply forEach_loadScript_names. right.
  apply in_map. by apply filter_matchScript_keeps.
Qed.

Lemma script_loads_app (t1 t2 : list Effect) :
  script_loads (t1 ++ t2) = script_loads t1 ++ script_loads t2.
Proof. unfold script_loads. by rewrite flat_map_app. Qed.

Lemma script_loads_matching pageUrl (l : list UserscriptInfo) :
  script_loads (snd (filter_matchScript urlMatch pageUrl l)) = [].
Proof.
  induction l as [|s r IH]; [done |].
  rewrite filter_matchScript_cons; simpl. rewrite script_loads_app, IH.
  unfold matchScript. by destruct (matchScript_try urlMatch pageUrl (meta s)).
Qed.

Lemma script_loads_load_effects (new : list UserscriptInfo) :
  script_loads (flat_map load_effects new) = map url new.
Proof.
  induction new as [|s r IH]; [done |].
  simpl. rewrite script_loads_app, IH.
  assert (Hcss : forall l, script_loads (map LoadCss l) = []).
  { intros l. induction l as [|a l IHl]; [done | exact IHl]. }
  by rewrite Hcss.
Qed.

Lemma session_script_loads loads : forall hot,
  exists new,
    fst (session urlMatch hot loads) = initial_loadedScripts hot ++ new
    /\ script_loads (snd (session urlMatch hot loads)) = map url new.
Proof.
  induction loads as [|[userscripts pageUrl] rest IH]; intros hot; simpl.
  - exists []. by rewrite app_nil_r.
  - rewrite client_module_eq.
    destruct (forEach_loadScript_added
                (fst (filter_matchScript urlMatch pageUrl userscripts))
                (initial_loadedScripts hot)) as (n1 & Hrun & _).
    unfold load_phase. rewrite Hrun. cbn [fst snd].
    destruct (IH (hot_after_dispose (initial_loadedScripts hot ++ n1)))
      as (n2 & H2 & R2).
    rewrite initial_after_dispose in H2.
    destruct (session urlMatch _ rest) as [final e2]. cbn [fst snd] in *.
    exists (n1 ++ n2). rewrite H2, <- app_assoc. split; [done |].
    rewrite !script_loads_app, script_loads_matching, script_loads_load_effects, R2.
    by rewrite map_app.
Qed.

(** X8. Over a page session (the first evaluation of the client module and
    any number of hot replacements of it) [__MK_GLOBAL__.loadScript] is
    called once for each userscript that enters the loaded set, with its
    url, in the order they enter, and for nothing else; from a fresh page
    the userscripts that enter have pairwise different names, so no name
    has a script run twice. *)
Theorem X8_global_loadScript_called_once_per_loaded_userscript hot loads :
  exists new,
    fst (session urlMatch hot loads) = initial_loadedScripts hot ++ new
    /\ script_loads (snd (session urlMatch hot loads)) = map url new
    /\ (initial_loadedScripts hot = [] -> NoDup (map name new)).
Proof.
  destruct (session_script_loads loads hot) as (new & Hfst & Hloads).
  exists new. split; [done |]. split; [done |].
  intros Hfresh.
  pose proof (session_NoDup urlMatch loads hot) as Hnd.
  rewrite Hfst, Hfresh in Hnd. simpl in Hnd. apply Hnd. constructor.
Qed.

End Reevaluation.

Section Stylesheets.

Lemma substring_skip (p t : string) k :
  substring (String.length p) k (p +:+ t) = substring 0 k t.
Proof. induction p as [|c p IH]; simpl; [done |]. by destruct k. Qed.

Lemma substring_all (t : string) : substring 0 (String.length t) t = t.
Proof. induction t as [|c t IH]; simpl; [done | by rewrite IH]. Qed.

Lemma length_append (p t : string) :
  String.length (p +:+ t) = String.length p + String.length t.
Proof. induction p as [|c p IH]; simpl; [done | by rewrite IH]. Qed.

Lemma substring_split (s : string) : forall a,
  a <= String.length s ->
  s = substring 0 a s +:+ substring a (String.length s - a) s.
Proof.
  induction s as [|c s IH]; intros a Ha; simpl in *.
  - by destruct a.
  - destruct a as [|a]; simpl.
    + by rewrite substring_all.
    + change (String c s = String c (substring 0 a s
                                       +:+ substring a (String.length s - a) s)).
      f_equal. apply IH. lia.
Qed.

(** [endsWith] holds exactly of the strings that are some prefix followed
    by the suffix. *)
Lemma endsWith_iff (s suffix : string) :
  endsWith s suffix = true <-> exists p, s = p +:+ suffix.
Proof.
  unfold endsWith. rewrite andb_true_iff, Nat.leb_le, String.eqb_eq. split.
  - intros [Hle Hsub]. remember (String.length suffix) as k eqn:Hk.
    exists (substring 0 (String.length s - k) s). rewrite <- Hsub.
    pose proof (substring_split s (String.length s - k)) as Hsplit.
    replace (String.length s - (String.length s - k)) with k in Hsplit by lia.
    apply Hsplit. lia.
  - intros [p ->]. rewrite length_append. split; [lia |].
    replace (String.length p + String.length suffix - String.length suffix)
      with (String.length p) by lia.
    by rewrite substring_skip, substring_all.
Qed.

(** X9. [loadScript] hands an asset to [loadCss] exactly when the name of
    the userscript is not in the loaded set and the asset is one of its
    declared assets whose name is some prefix followed by [.css]; the
    assets it hands over are in the order of the declaration. *)
Theorem X9_stylesheets_are_the_assets_ending_in_css
        (script : UserscriptInfo) (loaded : list UserscriptInfo) asset :
  (In (LoadCss asset) (snd (loadScript script loaded))
   <-> ~ In (name script) (map name loaded)
       /\ In asset (assets script)
       /\ exists prefix, asset = prefix +:+ ".css")
  /\ sublist (css_requests (snd (loadScript script loaded))) (assets script).
Proof.
  unfold loadScript.
  destruct (find (fun s => String.eqb (name s) (name script)) loaded) as [x|] eqn:E.
  - cbn [snd]. split; [| apply sublist_nil_l].
    split; [done |]. intros [Hnew _]. apply Hnew.
    apply find_some in E as [Hx Hn]. apply String.eqb_eq in Hn.
    rewrite <- Hn. by apply in_map.
  - apply find_name_unknown in E. cbn [snd]. split.
    + rewrite <- endsWith_iff. split.
      * intros [Hl | [Hg | Hin]]; [done | done |].
        apply in_map_iff in Hin as (a & [= ->] & Ha).
        apply filter_In in Ha as [? ?]. done.
      * intros (_ & Hin & Hcss). right. right. apply in_map.
        by apply filter_In.
    + rewrite css_requests_app, css_requests_LoadCss.
      change (css_requests [Log ["Loading script:"; name script];
                            GlobalLoadScript (url script)]) with (@nil string).
      rewrite app_nil_l.
      induction (assets script) as [|a r IH]; simpl; [constructor |].
      destruct (endsWith a ".css"); by constructor.
Qed.

End Stylesheets.

Section GlobalProperties.

Variable Value : Type.
Variable fns : ClientFunctions Value.

Implicit Types (global injection : gmap string Value) (k : string).

(** The property [k] of the global object after the assignment. *)
Lemma assign_global_lookup global injection k :
  assign_global Value fns global injection !! k
  = if decide (k = "styleLoaderInsertStyleElement")
    then Some (styleLoaderInsertStyleElement Value fns)
    else if decide (k = "miniCssExtractHmr") then Some (miniCssExtractHmr Value fns)
    else if decide (k = "GM_fetch") then Some (GM_fetch Value fns)
    else match injection !! k with
         | Some v => Some v
         | None => global !! k
         end.
Proof.
  unfold assign_global, object_assign, injected_properties.
  rewrite lookup_union, !lookup_insert.
  destruct (decide ("styleLoaderInsertStyleElement" = k)) as [<- |];
    [by destruct (global !! _) |].
  destruct (decide (k = "styleLoaderInsertStyleElement")); [done |].
  destruct (decide ("miniCssExtractHmr" = k)) as [<- |];
    [by destruct (global !! _) |].
  destruct (decide (k = "miniCssExtractHmr")); [done |].
  destruct (decide ("GM_fetch" = k)) as [<- |]; [by destruct (global !! _) |].
  destruct (decide (k = "GM_fetch")); [done |].
  by destruct (injection !! k), (global !! k).
Qed.

(** X10. After [Object.assign(__MK_GLOBAL__, ...)] the three functions of
    the client are on the global object whatever it or the injection held
    under their names; any other property the injection has is the
    injection's (so [userscripts] is read from the injection); and a
    property the injection does not have is left as it was (so the
    [loadScript] of the global object is still the one [loadScript()]
    calls). *)
Theorem X10_assignment_priority_on_global_object global injection k :
  assign_global Value fns global injection !! "GM_fetch"
  = Some (GM_fetch Value fns)
  /\ assign_global Value fns global injection !! "miniCssExtractHmr"
     = Some (miniCssExtractHmr Value fns)
  /\ assign_global Value fns global injection !! "styleLoaderInsertStyleElement"
     = Some (styleLoaderInsertStyleElement Value fns)
  /\ (k <> "GM_fetch" -> k <> "miniCssExtractHmr" ->
      k <> "styleLoaderInsertStyleElement" ->
      (forall v, injection !! k = Some v ->
                 assign_global Value fns global injection !! k = Some v)
      /\ (injection !! k = None ->
          assign_global Value fns global injection !! k = global !! k)).
Proof.
  split; [by rewrite assign_global_lookup |].
  split; [by rewrite assign_global_lookup |].
  split; [by rewrite assign_global_lookup |].
  intros H1 H2 H3. rewrite assign_global_lookup.
  destruct (decide (k = "styleLoaderInsertStyleElement")); [done |].
  destruct (decide (k = "miniCssExtractHmr")); [done |].
  destruct (decide (k = "GM_fetch")); [done |].
  split; [by intros v -> | by intros ->].
Qed.

(** X11. The assignment never removes a property of the global object, and
    it is idempotent; so when the client module is evaluated again with a
    new injection, a property that only the old injection had is still on
    the global object with its old value. *)
Theorem X11_assignment_keeps_stale_properties global injection injection' k v :
  dom global ⊆ dom (assign_global Value fns global injection)
  /\ assign_global Value fns (assign_global Value fns global injection) injection
     = assign_global Value fns global injection
  /\ (k <> "GM_fetch" -> k <> "miniCssExtractHmr" ->
      k <> "styleLoaderInsertStyleElement" ->
      injection !! k = Some v -> injection' !! k = None ->
      assign_global Value fns (assign_global Value fns global injection) injection'
        !! k
      = Some v).
Proof.
  split; [| split].
  - intros x Hx. apply elem_of_dom in Hx as [y Hy]. apply elem_of_dom.
    rewrite assign_global_lookup.
    repeat (case_decide; [by eexists |]).
    destruct (injection !! x); [by eexists |]. by exists y.
  - apply map_eq. intros x. rewrite !assign_global_lookup.
    repeat (case_decide; [done |]).
    by destruct (injection !! x).
  - intros H1 H2 H3 Hold Hnew. rewrite !assign_global_lookup.
    repeat (case_decide; [done |]).
    by rewrite Hnew, Hold.
Qed.

End GlobalProperties.

(** ** The further properties on concrete userscripts *)

Lemma X1_match_error_logged_iff_scan_throws_witness :
  scan_hits (fun p => sample_urlMatch p page)
            (include_patterns (meta script_bad_exclude))
  /\ scan_throws (fun p => sample_urlMatch p page)
                 (exclude_patterns (meta script_bad_exclude))
                 "SyntaxError: Invalid regular expression: /(/: Unterminated group"
  /\ matchScript sample_urlMatch page script_bad_exclude
     = (false,
        [match_error_log script_bad_exclude
           "SyntaxError: Invalid regular expression: /(/: Unterminated group"]).
Proof.
  assert (Hhit : scan_hits (fun p => sample_urlMatch p page)
                           (include_patterns (meta script_bad_exclude))).
  { exists [], "*", []. split; [reflexivity |]. split; [by intros q [] | reflexivity]. }
  assert (Hthrow : scan_throws (fun p => sample_urlMatch p page)
                     (exclude_patterns (meta script_bad_exclude))
                     "SyntaxError: Invalid regular expression: /(/: Unterminated group").
  { exists ["https://other.org/"], "/(/", []. split; [reflexivity |].
    split; [| reflexivity]. intros q [<- | []]. reflexivity. }
  split; [exact Hhit |]. split; [exact Hthrow |].
  apply (X1_match_error_logged_iff_scan_throws sample_urlMatch page script_bad_exclude).
  right. by split.
Defined.

Lemma X2_exclude_not_evaluated_without_include_hit_witness :
  (forall q, In q (include_patterns (meta script_elsewhere)) ->
             sample_urlMatch q page = Normal false)
  /\ exclude_patterns (meta script_elsewhere) = ["/(/"]
  /\ matchScript sample_urlMatch page script_elsewhere = (false, []).
Proof.
  assert (Hnone : forall q, In q (include_patterns (meta script_elsewhere)) ->
                            sample_urlMatch q page = Normal false).
  { intros q [<- | []]. reflexivity. }
  split; [exact Hnone |]. split; [reflexivity |].
  exact (X2_exclude_not_evaluated_without_include_hit
           sample_urlMatch page script_elsewhere Hnone).
Defined.

Lemma X3_order_of_patterns_irrelevant_without_exceptions_witness :
  Permutation (include_patterns (meta script_two_sites))
              (include_patterns (meta script_two_sites_swapped))
  /\ Permutation (exclude_patterns (meta script_two_sites))
                 (exclude_patterns (meta script_two_sites_swapped))
  /\ fst (matchScript sample_urlMatch page script_two_sites)
     = fst (matchScript sample_urlMatch page script_two_sites_swapped).
Proof.
  assert (Hinc : Permutation (include_patterns (meta script_two_sites))
                             (include_patterns (meta script_two_sites_swapped))).
  { apply perm_swap. }
  assert (Hexc : Permutation (exclude_patterns (meta script_two_sites))
                             (exclude_patterns (meta script_two_sites_swapped))).
  { apply perm_swap. }
  assert (Htotal : forall q,
             In q (include_patterns (meta script_two_sites)
                     ++ exclude_patterns (meta script_two_sites)) ->
             exists b, sample_urlMatch q page = Normal b).
  { intros q [<- | [<- | [<- | [<- | []]]]]; eexists; reflexivity. }
  split; [exact Hinc |]. split; [exact Hexc |].
  exact (proj1 (X3_order_of_patterns_irrelevant_without_exceptions
                  sample_urlMatch page script_two_sites script_two_sites_swapped
                  Hinc Hexc Htotal)).
Defined.

Lemma X4_loaded_names_are_old_or_matching_witness :
  In script_a [script_off; script_a]
  /\ fst (matchScript sample_urlMatch page script_a) = true
  /\ In "a" (map name (fst (load_phase sample_urlMatch [script_off; script_a]
                                       page None))).
Proof.
  assert (Hin : In script_a [script_off; script_a]) by (simpl; auto).
  split; [exact Hin |]. split; [reflexivity |].
  apply (X4_loaded_names_are_old_or_matching
           sample_urlMatch [script_off; script_a] page None "a").
  right. exists script_a. split; [exact Hin |]. split; reflexivity.
Defined.

Lemma X5_first_matching_userscript_of_a_name_is_loaded_witness :
  exists new,
    fst (load_phase sample_urlMatch [script_a; script_off; script_a_again] page None)
    = new
    /\ new = [script_a]
    /\ sublist new [script_a; script_off; script_a_again].
Proof.
  destruct (X5_first_matching_userscript_of_a_name_is_loaded
              sample_urlMatch [script_a; script_off; script_a_again] page None)
    as (new & Hfst & Hsub & _).
  exists new. simpl in Hfst. split; [exact Hfst |]. split; [| exact Hsub].
  rewrite <- Hfst. reflexivity.
Defined.

Lemma X7_reevaluation_loads_nothing_again_witness :
  (forall s, In s [script_a_edited; script_off] ->
             fst (matchScript sample_urlMatch page s) = true ->
             In (name s) (map name [script_a]))
  /\ client_module sample_urlMatch [script_a_edited; script_off] page
                   (hot_after_dispose [script_a])
     = ([script_a], []).
Proof.
  assert (Hknown : forall s, In s [script_a_edited; script_off] ->
                             fst (matchScript sample_urlMatch page s) = true ->
                             In (name s) (map name [script_a])).
  { intros s [<- | [<- | []]] Hm; [by left | discriminate Hm]. }
  split; [exact Hknown |].
  exact (proj1 (X7_reevaluation_loads_nothing_again
                  sample_urlMatch [] page None
                  [script_a_edited; script_off] page [script_a]) Hknown).
Defined.

Lemma X8_global_loadScript_called_once_per_loaded_userscript_witness :
  exists new,
    fst (session sample_urlMatch None
                 [([script_a; script_a_again], page); ([script_a_again], page)])
    = new
    /\ script_loads
         (snd (session sample_urlMatch None
                       [([script_a; script_a_again], page); ([script_a_again], page)]))
       = map url new
    /\ NoDup (map name new).
Proof.
  destruct (X8_global_loadScript_called_once_per_loaded_userscript
              sample_urlMatch None
              [([script_a; script_a_again], page); ([script_a_again], page)])
    as (new & Hfst & Hloads & Hnd).
  exists new. split; [exact Hfst |]. split; [exact Hloads | exact (Hnd eq_refl)].
Defined.

Lemma X9_stylesheets_are_the_assets_ending_in_css_witness :
  ~ In (name script_a) (map name [script_off])
  /\ In "a.css" (assets script_a)
  /\ In (LoadCss "a.css") (snd (loadScript script_a [script_off]))
  /\ ~ In (LoadCss "vendor.js") (snd (loadScript script_a [script_off])).
Proof.
  assert (Hnew : ~ In (name script_a) (map name [script_off])).
  { simpl. intros [Heq | []]. discriminate Heq. }
  assert (Hin : In "a.css" (assets script_a)) by (simpl; auto).
  split; [exact Hnew |]. split; [exact Hin |]. split.
  - apply (proj1 (X9_stylesheets_are_the_assets_ending_in_css
                    script_a [script_off] "a.css")).
    split; [exact Hnew |]. split; [exact Hin |]. by exists "a".
  - intros Hload.
    apply (proj1 (X9_stylesheets_are_the_assets_ending_in_css
                    script_a [script_off] "vendor.js")) in Hload
      as (_ & _ & prefix & Hsuffix).
    apply (f_equal (fun t => endsWith t ".css")) in Hsuffix.
    rewrite (proj2 (endsWith_iff (prefix +:+ ".css") ".css")) in Hsuffix;
      [discriminate Hsuffix | by exists prefix].
Defined.

Lemma X10_assignment_priority_on_global_object_witness :
  assign_global string client_functions dev_global first_injection !! "userscripts"
  = Some "the userscripts of the first build"
  /\ assign_global string client_functions dev_global first_injection !! "loadScript"
     = Some "function loadScript of the dev script"
  /\ assign_global string client_functions dev_global first_injection !! "GM_fetch"
     = Some "GM_fetch of the client".
Proof.
  destruct (X10_assignment_priority_on_global_object
              string client_functions dev_global first_injection "userscripts")
    as (Hfetch & _ & _ & Hother).
  destruct (X10_assignment_priority_on_global_object
              string client_functions dev_global first_injection "loadScript")
    as (_ & _ & _ & Hkept).
  assert (H1 : "userscripts" <> "GM_fetch") by discriminate.
  assert (H2 : "userscripts" <> "miniCssExtractHmr") by discriminate.
  assert (H3 : "userscripts" <> "styleLoaderInsertStyleElement") by discriminate.
  assert (K1 : "loadScript" <> "GM_fetch") by discriminate.
  assert (K2 : "loadScript" <> "miniCssExtractHmr") by discriminate.
  assert (K3 : "loadScript" <> "styleLoaderInsertStyleElement") by discriminate.
  split; [| split; [| exact Hfetch]].
  - apply (proj1 (Hother H1 H2 H3)). vm_compute. reflexivity.
  - rewrite (proj2 (Hkept K1 K2 K3)); vm_compute; reflexivity.
Defined.

Lemma X11_assignment_keeps_stale_properties_witness :
  first_injection !! "debug" = Some "true"
  /\ second_injection !! "debug" = None
  /\ assign_global string client_functions
                   (assign_global string client_functions dev_global first_injection)
                   second_injection !! "debug"
     = Some "true".
Proof.
  assert (Hold : first_injection !! "debug" = Some "true") by (vm_compute; reflexivity).
  assert (Hnew : second_injection !! "debug" = None) by (vm_compute; reflexivity).
  destruct (X11_assignment_keeps_stale_properties
              string client_functions dev_global first_injection second_injection
              "debug" "true") as (_ & _ & Hstale).
  split; [exact Hold |]. split; [exact Hnew |].
  apply Hstale; [discriminate | discriminate | discriminate | exact Hold | exact Hnew].
Defined.

(** * The assets of a reloaded instance *)

Section ReloadedAssets.

Variable urlMatch : string -> string -> Completion bool.

Lemma attached_by_app (t1 t2 : list Effect) :
  attached_by (t1 ++ t2) = attached_by t1 ++ attached_by t2.
Proof. unfold attached_by. by rewrite flat_map_app. Qed.

Lemma attached_by_LoadCss (l : list string) : attached_by (map LoadCss l) = l.
Proof. induction l as [|a r IH]; simpl; [done | by rewrite IH]. Qed.

Lemma attached_by_matching pageUrl (l : list UserscriptInfo) :
  attached_by (snd (filter_matchScript urlMatch pageUrl l)) = [].
Proof.
  induction l as [|s r IH]; [done |].
  rewrite filter_matchScript_cons; simpl. rewrite attached_by_app, IH.
  unfold matchScript. by destruct (matchScript_try urlMatch pageUrl (meta s)).
Qed.

Lemma attached_by_load_effects (new : list UserscriptInfo) :
  attached_by (flat_map load_effects new)
  = flat_map (fun x => url x :: css_assets x) new.
Proof.
  induction new as [|s r IH]; [done |].
  cbn [flat_map]. rewrite attached_by_app, IH. unfold load_effects.
  rewrite attached_by_app, attached_by_LoadCss. reflexivity.
Qed.

(** What a page session has put on the page: for each userscript that
    entered the loaded set, in the order they entered, its script and then
    its stylesheets. *)
Lemma session_attached loads : forall hot,
  exists new,
    fst (session urlMatch hot loads) = initial_loadedScripts hot ++ new
    /\ attached_by (snd (session urlMatch hot loads))
       = flat_map (fun x => url x :: css_assets x) new.
Proof.
  induction loads as [|[userscripts pageUrl] rest IH]; intros hot; simpl.
  - exists []. by rewrite app_nil_r.
  - rewrite client_module_eq.
    destruct (forEach_loadScript_added
                (fst (filter_matchScript urlMatch pageUrl userscripts))
                (initial_loadedScripts hot)) as (n1 & Hrun & _).
    unfold load_phase. rewrite Hrun. cbn [fst snd].
    destruct (IH (hot_after_dispose (initial_loadedScripts hot ++ n1)))
      as (n2 & H2 & R2).
    rewrite initial_after_dispose in H2.
    destruct (session urlMatch _ rest) as [final e2]. cbn [fst snd] in *.
    exists (n1 ++ n2). rewrite H2, <- app_assoc. split; [done |].
    rewrite !attached_by_app, attached_by_matching, attached_by_load_effects, R2.
    by rewrite flat_map_app.
Qed.

(** The assets [loadScript] asks for when it loads a userscript: its
    script, and its declared assets that end in [.css]. *)
Lemma requested_load_effects (s : UserscriptInfo) asset :
  requested asset (load_effects s)
  <-> asset = url s \/ (In asset (assets s) /\ endsWith asset ".css" = true).
Proof.
  unfold requested, load_effects, css_assets. simpl. split.
  - intros [[Hl | [Hg | Hin]] | [Hl | [Hg | Hin]]]; try done.
    + right. apply in_map_iff in Hin as (a & [= ->] & Ha). by apply filter_In in Ha.
    + left. by inversion Hg.
    + apply in_map_iff in Hin as (a & Ha & _). done.
  - intros [-> | Hcss].
    + right. right. by left.
    + left. right. right. apply in_map. by apply filter_In.
Qed.

(** C9, as the code has it. At a full reload of an instance whose name is
    in the loaded set of the page session, [loadScript] runs no asset
    loading for it: nothing the page holds is inserted again, and a
    declared asset the page does not hold is not loaded either. The asset
    loading of an instance, its script through [__MK_GLOBAL__.loadScript]
    and then each declared asset ending in [.css] through [loadCss], in
    the order of the declaration, is run when the instance enters the
    loaded set; so what a session has put on the page is the script and
    the stylesheets of each userscript that entered, one block each. *)
Theorem C9_assets_loaded_on_entry_never_again hot loads s :
  (In (name s) (map name (fst (session urlMatch hot loads))) ->
   snd (loadScript s (fst (session urlMatch hot loads))) = []
   /\ forall asset,
       In asset (attached_by (snd (session urlMatch hot loads))) ->
       ~ requested asset (snd (loadScript s (fst (session urlMatch hot loads)))))
  /\ (~ In (name s) (map name (fst (session urlMatch hot loads))) ->
      snd (loadScript s (fst (session urlMatch hot loads))) = load_effects s
      /\ forall asset,
          requested asset (snd (loadScript s (fst (session urlMatch hot loads))))
          <-> asset = url s \/ (In asset (assets s) /\ endsWith asset ".css" = true))
  /\ exists new,
      fst (session urlMatch hot loads) = initial_loadedScripts hot ++ new
      /\ attached_by (snd (session urlMatch hot loads))
         = flat_map (fun x => url x :: css_assets x) new.
Proof.
  split; [| split].
  - intros Hknown. rewrite loadScript_known; [|done]. split; [done |].
    intros asset _ [[] | []].
  - intros Hnew.
    assert (Hrun : snd (loadScript s (fst (session urlMatch hot loads)))
                   = load_effects s).
    { unfold loadScript.
      destruct (find _ (fst (session urlMatch hot loads))) eqn:E; [|done].
      apply find_some in E as [Hx Hn]. apply String.eqb_eq in Hn.
      destruct Hnew. rewrite <- Hn. by apply in_map. }
    split; [exact Hrun |]. intros asset. rewrite Hrun.
    apply requested_load_effects.
  - apply session_attached.
Qed.

End ReloadedAssets.

(** C9 as written fails on the code: the userscript [a] was loaded by the
    first evaluation of the session, an edit adds the stylesheet
    [extra.css] to it, and at its reload [loadScript] asks for nothing, so
    the stylesheet the page does not hold is not loaded. *)
Lemma C9_full_reload_assets_as_written_fails : ~ full_reload_assets_as_written.
Proof.
  intros H.
  destruct (H sample_urlMatch None [([script_a], page)] script_a_edited eq_refl)
    as [Hrun _]; [simpl; auto |].
  assert (Hreq : requested "extra.css"
                   (snd (loadScript script_a_edited
                           (fst (session sample_urlMatch None [([script_a], page)]))))).
  { apply Hrun; [simpl; auto | left; reflexivity |].
    vm_compute. intros [Heq | [Heq | []]]; discriminate Heq. }
  vm_compute in Hreq. by destruct Hreq as [[] | []].
Qed.

Lemma C9_assets_loaded_on_entry_never_again_witness :
  In (name script_a_edited)
     (map name (fst (session sample_urlMatch None [([script_a], page)])))
  /\ ~ In (name script_off)
          (map name (fst (session sample_urlMatch None [([script_a], page)])))
  /\ snd (loadScript script_a_edited
                     (fst (session sample_urlMatch None [([script_a], page)])))
     = []
  /\ requested "off.css"
       (snd (loadScript script_off
                        (fst (session sample_urlMatch None [([script_a], page)]))))
  /\ requested "http://localhost:3000/off.user.js"
       (snd (loadScript script_off
                        (fst (session sample_urlMatch None [([script_a], page)])))).
Proof.
  assert (Hknown : In (name script_a_edited)
                      (map name (fst (session sample_urlMatch None
                                              [([script_a], page)]))))
    by (simpl; auto).
  assert (Hnew : ~ In (name script_off)
                      (map name (fst (session sample_urlMatch None
                                              [([script_a], page)])))).
  { simpl. intros [Heq | []]. discriminate Heq. }
  destruct (C9_assets_loaded_on_entry_never_again
              sample_urlMatch None [([script_a], page)] script_a_edited)
    as (Hreload & _ & _).
  destruct (C9_assets_loaded_on_entry_never_again
              sample_urlMatch None [([script_a], page)] script_off)
    as (_ & Hentry & _).
  split; [exact Hknown |]. split; [exact Hnew |].
  split; [exact (proj1 (Hreload Hknown)) |].
  destruct (Hentry Hnew) as [_ Hreq]. split.
  - apply Hreq. right. split; [simpl; auto | reflexivity].
  - apply Hreq. by left.
Defined.
